(** * The versioned IR-graph migrator of [tvm/ir/json_compact.py]

    A shallow embedding of [create_updater], the three per-version rule
    sets and [upgrade_json], followed by the properties of the migrator.

    Python objects are mutable and shared: the [item] handed to a rule is
    the very dict stored in [nodes[idx]], and a rule may reach the same dict
    again through [nodes[vindex]].  The embedding therefore keeps an explicit
    object store ([heap]) next to the Python list ([nodes], a list of
    addresses), and every statement of the source reads and writes through
    it.  Exceptions are values of [exn]; a rule is a computation in a state
    and exception monad over the store.

    What the embedding fixes:
    - a node is a record with the fields of the snapshot format: a string
      [type_key], an optional map [attrs] from strings to strings, the
      optional strings [global_key] and [repr_str], and [keys] and [data],
      which no rule touches;
    - a string is a sequence of characters with the code points 0 to 255,
      a character standing for the code point of its number;
    - [assert] statements are executed;
    - an exception does not undo the writes of the statements before it: a
      computation on the store that raises yields the exception and the
      store at that point;
    - [json.loads] and [json.dumps] are taken up to the layout of the text:
      [upgrade_json] maps a parsed snapshot to a parsed snapshot;
    - the loop of [_updater] need not end for an arbitrary rule set (a rule
      may append a node whose own rule appends again), so it carries a fuel;
      [upgrade_json_enough_fuel] shows that the three passes of the migrator
      end. *)

From stdpp Require Import base option list strings pretty gmap.
From Stdlib Require Import Ascii ZArith Lia.

Set Default Proof Using "Type".

(* ================================================================== *)
(** ** Exceptions and results *)

(** The two [ValueError]s the migrator can raise: the one of [int(...)] on
    a string that is no integer literal, and the one of [upgrade_json]. *)
Inductive value_error :=
| InvalidIntLiteral (literal : string)
| CannotUpdateFrom (from_version : string).

(** [BadAddress] has no Python counterpart: a Python reference is always
    live.  It makes the store operations total on addresses that no loaded
    snapshot can contain. *)
Inductive exn :=
| KeyError (key : string)
| IndexError
| AssertionError (msg : string)
| ValueError (why : value_error)
| BadAddress.

(** The text Python prints for the [ValueError] of [upgrade_json]:
    [f"Cannot update from version {from_version}"]. *)
Definition cannot_update_message (from_version : string) : string :=
  "Cannot update from version " +:+ from_version.

(** [OutOfFuel] is the outcome of a loop that was cut off by the fuel of the
    model; it is not an exception of the program.  [E] is what a [raise]
    carries: the exception for a call of the migrator, and the exception
    together with the store for a statement that runs on the store (see
    [M]). *)
Inductive outcome (E A : Type) :=
| Ok (a : A)
| Raise (e : E)
| OutOfFuel.
Arguments Ok {E A} a.
Arguments Raise {E A} e.
Arguments OutOfFuel {E A}.

(** The outcome of a call that returns a value or raises. *)
Abbreviation result := (outcome exn).

Definition result_bind {E A B} (r : outcome E A) (k : A → outcome E B)
    : outcome E B :=
  match r with
  | Ok a => k a
  | Raise e => Raise e
  | OutOfFuel => OutOfFuel
  end.

(* ================================================================== *)
(** ** Strings: [startswith], slicing, [int] *)

(** [s.startswith(p)] *)
Definition startswith (s p : string) : bool := String.prefix p s.

(** [s[n:]] *)
Fixpoint slice_from (n : nat) (s : string) : string :=
  match n, s with
  | O, _ => s
  | S n', String _ s' => slice_from n' s'
  | S _, EmptyString => EmptyString
  end.

(** Whitespace that [int] skips around a literal: TAB, LF, VT, FF, CR and
    the space, and of the characters above 127 the two that Unicode counts
    as whitespace, NEL (133) and the no-break space (160).  The separators 28
    to 31 are whitespace for [str.strip] but not for [int]: [int] reads the
    characters below 127 as they are, and its parser skips the six
    characters above only. *)
Definition is_py_space (a : ascii) : bool :=
  let c := nat_of_ascii a in
  ((9 <=? c) && (c <=? 13)) || (c =? 32) || (c =? 133) || (c =? 160).

Fixpoint lstrip (s : string) : string :=
  match s with
  | String a s' => if is_py_space a then lstrip s' else s
  | EmptyString => EmptyString
  end.

Fixpoint rstrip (s : string) : string :=
  match s with
  | String a s' =>
      match rstrip s' with
      | EmptyString =>
          if is_py_space a then EmptyString else String a EmptyString
      | r => String a r
      end
  | EmptyString => EmptyString
  end.

Definition strip (s : string) : string := rstrip (lstrip s).

(** The digits of an integer literal in base 10: at least one digit, the
    digits are the ten characters ["0"] to ["9"] (no character above 127 is
    a decimal digit), leading zeros are allowed, and a single underscore is
    allowed between two digits.  [prev] tells whether the previous character
    was a digit. *)
Fixpoint int_digits (s : string) (acc : N) (prev : bool) : option N :=
  match s with
  | EmptyString => if prev then Some acc else None
  | String c s' =>
      match Ascii.is_nat c with
      | Some d => int_digits s' (10 * acc + N.of_nat d)%N true
      | None =>
          if (Ascii.eqb c "_" && prev)%bool then int_digits s' acc false
          else None
      end
  end.

(** [int(s)]: optional whitespace, an optional sign, the digits, optional
    whitespace; [None] stands for [ValueError].  The number of digits is
    not bounded here: the limit that CPython 3.11 and later put on it
    ([sys.set_int_max_str_digits], 4300 digits by default) is a setting of
    the interpreter; [int] and [py_int] agree on every string within the
    limit, which is where the properties below use it. *)
Definition py_int (s : string) : option Z :=
  match strip s with
  | String "+" r => Z.of_N <$> int_digits r 0%N false
  | String "-" r => (λ n, - Z.of_N n)%Z <$> int_digits r 0%N false
  | r => Z.of_N <$> int_digits r 0%N false
  end.

(** [l[i]] on a Python list: a negative index counts from the end; [None]
    stands for [IndexError]. *)
Definition py_getitem {A} (l : list A) (i : Z) : option A :=
  if (0 <=? i)%Z then l !! Z.to_nat i
  else if (- Z.of_nat (length l) <=? i)%Z
  then l !! Z.to_nat (Z.of_nat (length l) + i)
  else None.

(* ================================================================== *)
(** ** Nodes, the object store and the snapshot *)

(** A node record of the snapshot.  [type_key] is always written by the
    producer; ["attrs"] is left out when a node has no attribute, so it is
    optional, as are the legacy fields ["global_key"] and ["repr_str"]. *)
Record node := Node {
  type_key : string;
  attrs : option (gmap string string);
  global_key : option string;
  repr_str : option string;
  keys : list string;
  data : list Z
}.

Definition set_type_key (tk : string) (n : node) : node :=
  Node tk (attrs n) (global_key n) (repr_str n) (keys n) (data n).
Definition set_attrs (a : gmap string string) (n : node) : node :=
  Node (type_key n) (Some a) (global_key n) (repr_str n) (keys n) (data n).
Definition set_global_key (g : option string) (n : node) : node :=
  Node (type_key n) (attrs n) g (repr_str n) (keys n) (data n).
Definition set_repr_str (r : option string) (n : node) : node :=
  Node (type_key n) (attrs n) (global_key n) r (keys n) (data n).

(** Addresses of dicts in the store. *)
Abbreviation addr := nat.

(** [heap] holds the dicts, [nodes] is the Python list [data["nodes"]]: a
    list of references into [heap]. *)
Record store := Store {
  heap : list node;
  nodes : list addr
}.

(** The parsed snapshot text: what [json.loads] reads and [json.dumps]
    writes.  ["attrs"] of the envelope holds the version string. *)
Record json_doc := JsonDoc {
  doc_version : string;
  doc_root : nat;
  doc_b64ndarrays : list string;
  doc_nodes : list node
}.

(** The snapshot in memory, as [_updater] sees it. *)
Record py_data := PyData {
  tvm_version : string;
  root : nat;
  b64ndarrays : list string;
  mem : store
}.

(* ================================================================== *)
(** ** The monad of rules *)

(** A Python exception does not undo what the statements before it have
    written: the dicts and the list stay as the raising statement found
    them, and whoever holds a reference sees them so.  A computation that
    raises therefore yields the exception together with the store at that
    point. *)
Definition M (A : Type) : Type := store → outcome (exn * store) (A * store).

Global Instance M_ret : MRet M := λ A a σ, Ok (a, σ).
Global Instance M_bind : MBind M := λ A B k m σ,
  match m σ with
  | Ok (a, σ') => k a σ'
  | Raise e => Raise e
  | OutOfFuel => OutOfFuel
  end.

Definition raise {A} (e : exn) : M A := λ σ, Raise (e, σ).

(** Read the dict at an address. *)
Definition deref (a : addr) : M node := λ σ,
  match heap σ !! a with
  | Some n => Ok (n, σ)
  | None => Raise (BadAddress, σ)
  end.

(** Overwrite the dict at an address (the effect of an in-place update). *)
Definition assign (a : addr) (n : node) : M unit := λ σ,
  if decide (a < length (heap σ))
  then Ok (tt, Store (<[a := n]> (heap σ)) (nodes σ))
  else Raise (BadAddress, σ).

(** A fresh dict. *)
Definition alloc (n : node) : M addr := λ σ,
  Ok (length (heap σ), Store (heap σ ++ [n]) (nodes σ)).

(** [len(nodes)] *)
Definition nodes_len : M nat := λ σ, Ok (length (nodes σ), σ).

(** [nodes.append(val)] *)
Definition nodes_append (a : addr) : M unit := λ σ,
  Ok (tt, Store (heap σ) (nodes σ ++ [a])).

(** [nodes[i]] *)
Definition nodes_getitem (i : Z) : M addr := λ σ,
  match py_getitem (nodes σ) i with
  | Some a => Ok (a, σ)
  | None => Raise (IndexError, σ)
  end.

(** [nodes[idx] = item], for the non-negative [idx] of [enumerate]. *)
Definition nodes_setitem (idx : nat) (a : addr) : M unit := λ σ,
  if decide (idx < length (nodes σ))
  then Ok (tt, Store (heap σ) (<[idx := a]> (nodes σ)))
  else Raise (IndexError, σ).

(** [item["type_key"]] *)
Definition get_type_key (item : addr) : M string :=
  n ← deref item; mret (type_key n).

(** [item["type_key"] = tk] *)
Definition put_type_key (item : addr) (tk : string) : M unit :=
  n ← deref item; assign item (set_type_key tk n).

(** [item["attrs"]] *)
Definition get_attrs (item : addr) : M (gmap string string) :=
  n ← deref item;
  match attrs n with
  | Some a => mret a
  | None => raise (KeyError "attrs")
  end.

(** [item["attrs"][key]] *)
Definition attrs_getitem (item : addr) (key : string) : M string :=
  a ← get_attrs item;
  match a !! key with
  | Some v => mret v
  | None => raise (KeyError key)
  end.

(** [key in item["attrs"]] *)
Definition attrs_contains (item : addr) (key : string) : M bool :=
  a ← get_attrs item; mret (bool_decide (is_Some (a !! key))).

(** [item["attrs"][key] = v] *)
Definition attrs_setitem (item : addr) (key v : string) : M unit :=
  a ← get_attrs item;
  n ← deref item;
  assign item (set_attrs (<[key := v]> a) n).

(** [del item["attrs"][key]] *)
Definition attrs_delitem (item : addr) (key : string) : M unit :=
  a ← get_attrs item;
  match a !! key with
  | Some _ => n ← deref item; assign item (set_attrs (delete key a) n)
  | None => raise (KeyError key)
  end.

(** [assert b, msg] (assertions enabled, as under the default interpreter
    flags). *)
Definition py_assert (b : bool) (msg : string) : M unit :=
  if b then mret tt else raise (AssertionError msg).

(* ================================================================== *)
(** ** [create_updater]: the rule applicator *)

(** A rewrite rule: the Python function [f(item, nodes)], returning the
    item to store.  [nodes] is the list of the store. *)
Definition rule := addr → M addr.

(** A value of [node_map]: one function, or a list of functions
    ([isinstance(f, list)]). *)
Inductive entry :=
| Single (f : rule)
| Chain (fs : list rule).

(** [for fpass in f: item = fpass(item, nodes)] *)
Fixpoint run_chain (fs : list rule) (item : addr) : M addr :=
  match fs with
  | [] => mret item
  | fpass :: fs' => item' ← fpass item; run_chain fs' item'
  end.

(** The body of the loop of [_updater] for one pair [(idx, item)]. *)
Definition _updater_visit (node_map : gmap string entry)
    (idx : nat) (item : addr) : M unit :=
  tk ← get_type_key item;
  item' ← match node_map !! tk with
          | Some (Chain fs) => run_chain fs item
          | Some (Single f) => f item
          | None => mret item
          end;
  nodes_setitem idx item'.

(** [for idx, item in enumerate(nodes)]: the list iterator compares its
    counter with the length the list has at that moment, at every step.  The
    result is the counter at exit, that is, the number of pairs the loop has
    visited: the indices [0], [1], ..., up to it.  [fuel] bounds the number of
    visits. *)
Fixpoint _updater_loop (node_map : gmap string entry)
    (fuel idx : nat) : M nat := λ σ,
  match nodes σ !! idx with
  | None => Ok (idx, σ)
  | Some item =>
      match fuel with
      | O => OutOfFuel
      | S fuel' =>
          (_updater_visit node_map idx item;;
           _updater_loop node_map fuel' (S idx)) σ
      end
  end.

(** [_updater(data)] of [create_updater(node_map, from_ver, to_ver)].  An
    exception of the loop leaves [_updater] as it is; the caller of
    [upgrade_json] holds no reference to [data], so the store is dropped
    here. *)
Definition create_updater (node_map : gmap string entry)
    (from_ver to_ver : string) (fuel : nat) (d : py_data) : result py_data :=
  if startswith (tvm_version d) from_ver then
    match _updater_loop node_map fuel 0 (mem d) with
    | Ok (_, σ) => Ok (PyData to_ver (root d) (b64ndarrays d) σ)
    | Raise (e, _) => Raise e
    | OutOfFuel => OutOfFuel
    end
  else Raise (AssertionError "").

(* ================================================================== *)
(** ** The rules of the three version steps *)

(** 0.8 to 0.9 *)
Definition _initialize_virtual_device : rule := λ item,
  present ← attrs_contains item "virtual_device_";
  (if negb present then attrs_setitem item "virtual_device_" "0" else mret tt);;
  mret item.

(** 0.7 to 0.8 *)
Definition _initialize_module_attributes : rule := λ item,
  tk ← get_type_key item;
  py_assert (bool_decide (tk = "IRModule"))
    "Only initialize the attributes for IRModules";;
  present ← attrs_contains item "attrs";
  (if negb present then attrs_setitem item "attrs" "0" else mret tt);;
  mret item.

(** 0.6 to 0.7 *)
Definition _ftype_var : rule := λ item,
  var ← attrs_getitem item "var";
  vindex ← match py_int var with
           | Some z => mret z
           | None => raise (ValueError (InvalidIntLiteral var))
           end;
  target ← nodes_getitem vindex;
  name ← attrs_getitem target "name";
  attrs_setitem item "name_hint" name;;
  put_type_key target "";;
  attrs_delitem item "var";;
  tk ← get_type_key item;
  py_assert (startswith tk "relay.") "";;
  tk ← get_type_key item;
  put_type_key item (slice_from (String.length "relay.") tk);;
  mret item.

Definition _rename (new_name : string) : rule := λ item,
  put_type_key item new_name;;
  mret item.

Definition _update_tir_var (new_name : string) : rule := λ item,
  put_type_key item new_name;;
  attrs_setitem item "type_annotation" "0";;
  mret item.

Definition _update_global_key : rule := λ item,
  n ← deref item;
  match global_key n with
  | Some g =>
      assign item (set_repr_str (Some g) n);;
      n' ← deref item;
      assign item (set_global_key None n')
  | None => mret tt
  end;;
  mret item.

Section updaters.

(** [save_json_string s] stands for
    [json.loads(tvm.ir.save_json(tvm.runtime.String(s)))]: the snapshot of
    one string in the current format.  The serializer is not part of the
    migrator and stays a parameter. *)
Variable save_json_string : string → json_doc.

Definition _update_from_std_str (key : string) : rule := λ item,
  str_val ← attrs_getitem item key;
  let jdata := save_json_string str_val in
  let root_idx := doc_root jdata in
  val_node ← match doc_nodes jdata !! root_idx with
             | Some n => mret n
             | None => raise IndexError
             end;
  val ← alloc val_node;
  sidx ← nodes_len;
  nodes_append val;;
  attrs_setitem item key (pretty sidx);;
  mret item.

(** The dict literals [node_map] of the three [create_updater_*]
    functions: their items in the order of the source, and the dict.  No key
    occurs twice (see [node_map_items_NoDup]). *)
Definition node_map_08_to_09_items : list (string * entry) := [
  ("GlobalVar", Single _initialize_virtual_device);
  ("relay.Var", Single _initialize_virtual_device);
  ("relay.Function", Single _initialize_virtual_device);
  ("relay.Tuple", Single _initialize_virtual_device);
  ("relay.Call", Single _initialize_virtual_device);
  ("relay.Let", Single _initialize_virtual_device);
  ("relay.If", Single _initialize_virtual_device);
  ("relay.TupleGetItem", Single _initialize_virtual_device);
  ("relay.RefCreate", Single _initialize_virtual_device);
  ("relay.RefRead", Single _initialize_virtual_device);
  ("relay.RefWrite", Single _initialize_virtual_device);
  ("relay.Match", Single _initialize_virtual_device);
  ("relay.Constant", Single _initialize_virtual_device)
].

Definition node_map_08_to_09 : gmap string entry :=
  list_to_map node_map_08_to_09_items.

Definition create_updater_08_to_09 : nat → py_data → result py_data :=
  create_updater node_map_08_to_09 "0.8" "0.9".

Definition node_map_07_to_08_items : list (string * entry) := [
  ("IRModule", Single _initialize_module_attributes)
].

Definition node_map_07_to_08 : gmap string entry :=
  list_to_map node_map_07_to_08_items.

Definition create_updater_07_to_08 : nat → py_data → result py_data :=
  create_updater node_map_07_to_08 "0.7" "0.8".

Definition node_map_06_to_07_items : list (string * entry) := [
  ("SourceName", Single _update_global_key);
  ("EnvFunc", Single _update_global_key);
  ("relay.Op", Chain [_update_global_key; _rename "Op"]);
  ("relay.TypeVar", Chain [_ftype_var; _update_from_std_str "name_hint"]);
  ("TypeVar", Single (_update_from_std_str "name_hint"));
  ("relay.Id", Chain [_update_from_std_str "name_hint"]);
  ("relay.GlobalTypeVar", Chain [_ftype_var; _update_from_std_str "name_hint"]);
  ("GlobalTypeVar", Single (_update_from_std_str "name_hint"));
  ("relay.Type", Single (_rename "Type"));
  ("relay.TupleType", Single (_rename "TupleType"));
  ("relay.TypeConstraint", Single (_rename "TypeConstraint"));
  ("relay.FuncType", Single (_rename "FuncType"));
  ("relay.IncompleteType", Single (_rename "IncompleteType"));
  ("relay.TypeRelation", Single (_rename "TypeRelation"));
  ("relay.TypeCall", Single (_rename "TypeCall"));
  ("relay.Constructor", Single (_update_from_std_str "name_hint"));
  ("relay.Module", Single (_rename "IRModule"));
  ("relay.SourceName", Single (_rename "SourceName"));
  ("relay.Span", Single (_rename "Span"));
  ("relay.GlobalVar", Chain [_rename "GlobalVar";
                             _update_from_std_str "name_hint"]);
  ("GlobalVar", Single (_update_from_std_str "name_hint"));
  ("relay.Pass", Single (_rename "transform.Pass"));
  ("relay.PassInfo", Single (_rename "transform.PassInfo"));
  ("relay.PassContext", Single (_rename "transform.PassContext"));
  ("relay.ModulePass", Single (_rename "transform.ModulePass"));
  ("relay.Sequential", Single (_rename "transform.Sequential"));
  ("StrMap", Single (_rename "Map"));
  ("Variable", Chain [_update_tir_var "tir.Var"; _update_from_std_str "name"]);
  ("SizeVar", Chain [_update_tir_var "tir.SizeVar";
                     _update_from_std_str "name"]);
  ("StringImm", Chain [_rename "tir.StringImm"; _update_from_std_str "value"]);
  ("Cast", Single (_rename "tir.Cast"));
  ("Add", Single (_rename "tir.Add"));
  ("Sub", Single (_rename "tir.Sub"));
  ("Mul", Single (_rename "tir.Mul"));
  ("Div", Single (_rename "tir.Div"));
  ("Mod", Single (_rename "tir.Mod"));
  ("FloorDiv", Single (_rename "tir.FloorDiv"));
  ("FloorMod", Single (_rename "tir.FloorMod"));
  ("Min", Single (_rename "tir.Min"));
  ("Max", Single (_rename "tir.Max"));
  ("EQ", Single (_rename "tir.EQ"));
  ("NE", Single (_rename "tir.NE"));
  ("LT", Single (_rename "tir.LT"));
  ("LE", Single (_rename "tir.LE"));
  ("GT", Single (_rename "tir.GT"));
  ("GE", Single (_rename "tir.GE"));
  ("And", Single (_rename "tir.And"));
  ("Or", Single (_rename "tir.Or"));
  ("Not", Single (_rename "tir.Not"));
  ("Select", Single (_rename "tir.Select"));
  ("BufferLoad", Single (_rename "tir.BufferLoad"));
  ("Ramp", Single (_rename "tir.Ramp"));
  ("Broadcast", Single (_rename "tir.Broadcast"));
  ("Shuffle", Single (_rename "tir.Shuffle"));
  ("Call", Chain [_rename "tir.Call"; _update_from_std_str "name"]);
  ("Let", Single (_rename "tir.Let"));
  ("Any", Single (_rename "tir.Any"));
  ("LetStmt", Single (_rename "tir.LetStmt"));
  ("AssertStmt", Single (_rename "tir.AssertStmt"));
  ("BufferStore", Single (_rename "tir.BufferStore"));
  ("BufferRealize", Single (_rename "tir.BufferRealize"));
  ("Allocate", Single (_rename "tir.Allocate"));
  ("IfThenElse", Single (_rename "tir.IfThenElse"));
  ("Evaluate", Single (_rename "tir.Evaluate"));
  ("Prefetch", Single (_rename "tir.Prefetch"));
  ("AttrStmt", Chain [_rename "tir.AttrStmt"; _update_from_std_str "attr_key"]);
  ("Layout", Chain [_rename "tir.Layout"; _update_from_std_str "name"]);
  ("Buffer", Chain [_rename "tir.Buffer"; _update_from_std_str "name";
                     _update_from_std_str "scope"])
].

Definition node_map_06_to_07 : gmap string entry :=
  list_to_map node_map_06_to_07_items.

Definition create_updater_06_to_07 : nat → py_data → result py_data :=
  create_updater node_map_06_to_07 "0.6" "0.7".

(* ================================================================== *)
(** ** [upgrade_json] *)

(** [json.loads] on the parsed text: every node record becomes a dict of
    its own, and the list [nodes] refers to them in order. *)
Definition json_loads (doc : json_doc) : py_data :=
  PyData (doc_version doc) (doc_root doc) (doc_b64ndarrays doc)
         (Store (doc_nodes doc) (seq 0 (length (doc_nodes doc)))).

(** [json.dumps], up to the layout of the text: the node records are read
    off the list [nodes]. *)
Definition json_dumps (d : py_data) : result json_doc :=
  match mapM (λ a, heap (mem d) !! a) (nodes (mem d)) with
  | Some ns => Ok (JsonDoc (tvm_version d) (root d) (b64ndarrays d) ns)
  | None => Raise BadAddress
  end.

Definition upgrade_json (fuel : nat) (json_str : json_doc) : result json_doc :=
  let data := json_loads json_str in
  let from_version := tvm_version data in
  if startswith from_version "0.6" then
    result_bind
      (result_bind
         (result_bind (create_updater_06_to_07 fuel data)
                      (create_updater_07_to_08 fuel))
         (create_updater_08_to_09 fuel))
      json_dumps
  else if startswith from_version "0.7" then
    result_bind
      (result_bind (create_updater_07_to_08 fuel data)
                   (create_updater_08_to_09 fuel))
      json_dumps
  else if startswith from_version "0.8" then
    result_bind (create_updater_08_to_09 fuel data) json_dumps
  else Raise (ValueError (CannotUpdateFrom from_version)).

End updaters.

(** Modelled from the spec: the value-encoding service
    [tvm.ir.save_json] on a [tvm.runtime.String], which is not among the
    sources.  Given a string it returns a minimal node-table fragment that
    represents the string in the current format, with the index of its root:
    here an empty node at index 0 and, at the root index 1, a node of type
    ["runtime.String"] that holds the string.  It instantiates the parameter
    [save_json_string] in the examples only. *)
Definition runtime_string (s : string) : json_doc :=
  JsonDoc "0.9.0" 1 []
    [ Node "" None None None [] [];
      Node "runtime.String" None None (Some s) [] [] ].

(* ================================================================== *)
(** ** The specification's reading of the pass and of the driver *)

(** The pass as the specification words it: the length of the table is
    captured once, before the pass begins, and the indices below it are
    visited ([for idx in range(len(nodes))]). *)
Fixpoint snapshot_loop (node_map : gmap string entry) (n idx : nat) : M nat :=
  match n with
  | O => mret idx
  | S n' => λ σ,
      match nodes σ !! idx with
      | Some item =>
          (_updater_visit node_map idx item;;
           snapshot_loop node_map n' (S idx)) σ
      | None => Raise (IndexError, σ)
      end
  end.

Definition snapshot_pass (node_map : gmap string entry) : M nat := λ σ,
  snapshot_loop node_map (length (nodes σ)) 0 σ.

(** The version chain driver as the specification words it: the known
    source versions in increasing order, each with the edges that lead from
    it to the terminal version. *)
Inductive edge := Edge_06_07 | Edge_07_08 | Edge_08_09.

Definition terminal_version : string := "0.9".

Definition known_versions : list (string * list edge) :=
  [ ("0.6", [Edge_06_07; Edge_07_08; Edge_08_09]);
    ("0.7", [Edge_07_08; Edge_08_09]);
    ("0.8", [Edge_08_09]) ].

(** The state whose value is a prefix of the declared version. *)
Definition source_state (declared : string) : option (string * list edge) :=
  List.find (λ st, startswith declared st.1) known_versions.

Definition run_edge (save_json_string : string → json_doc) (fuel : nat)
    (e : edge) : py_data → result py_data :=
  match e with
  | Edge_06_07 => create_updater_06_to_07 save_json_string fuel
  | Edge_07_08 => create_updater_07_to_08 fuel
  | Edge_08_09 => create_updater_08_to_09 fuel
  end.

Fixpoint run_edges (save_json_string : string → json_doc) (fuel : nat)
    (es : list edge) (d : py_data) : result py_data :=
  match es with
  | [] => Ok d
  | e :: es' =>
      result_bind (run_edge save_json_string fuel e d)
                  (run_edges save_json_string fuel es')
  end.

Definition version_chain_driver (save_json_string : string → json_doc)
    (fuel : nat) (doc : json_doc) : result json_doc :=
  match source_state (doc_version doc) with
  | Some (_, es) =>
      result_bind (run_edges save_json_string fuel es (json_loads doc))
                  json_dumps
  | None => Raise (ValueError (CannotUpdateFrom (doc_version doc)))
  end.

(** The first version step alone, as a call of its own on a snapshot
    text. *)
Definition upgrade_06_to_07 (save_json_string : string → json_doc)
    (fuel : nat) (doc : json_doc) : result json_doc :=
  result_bind (create_updater_06_to_07 save_json_string fuel (json_loads doc))
              json_dumps.

(* ================================================================== *)
(** ** Sample snapshots *)

(** A type variable of version 0.6 and the variable it refers to by
    index. *)
Definition type_var_node : node :=
  Node "relay.TypeVar" (Some {["var" := "1"]}) None None [] [].
Definition var_target_node : node :=
  Node "Variable" (Some {["name" := "T"]}) None None [] [].
Definition type_var_store : store :=
  Store [type_var_node; var_target_node] [0; 1].

(** Two type variables that share one referenced node. *)
Definition shared_var_store : store :=
  Store [ type_var_node;
          Node "relay.GlobalTypeVar" (Some {["var" := "1"]}) None None [] [];
          var_target_node ]
        [0; 2; 1].

(** A type variable that refers to a node without ["name"]. *)
Definition nameless_target_node : node :=
  Node "Variable" (Some {["label" := "T"]}) None None [] [].
Definition nameless_target_store : store :=
  Store [type_var_node; nameless_target_node] [0; 1].

(** A type variable whose ["var"] is its own index. *)
Definition self_var_node : node :=
  Node "relay.TypeVar" (Some {["var" := "0"; "name" := "T"]}) None None [] [].
Definition self_var_store : store := Store [self_var_node] [0].

(** Nodes for the default-fill rules. *)
Definition module_node : node :=
  Node "IRModule" (Some {["attrs" := "3"]}) None None [] [].
Definition tir_var_node : node :=
  Node "tir.Var" (Some {["name" := "1"]}) None None [] [].
Definition relay_var_node : node :=
  Node "relay.Var" (Some {["virtual_device_" := "7"]}) None None [] [].

(** The single variable node of version 0.6 and its table. *)
Definition variable_x : node :=
  Node "Variable" (Some {["name" := "x"]}) None None [] [].
Definition variable_store : store := Store [variable_x] [0].

(** A rule set that registers a rule for the type key of the string node
    which the attribute promotion appends. *)
Definition revisit_map : gmap string entry := list_to_map [
  ("Variable", Single (_update_from_std_str runtime_string "name"));
  ("runtime.String", Single (_rename "visited"))
].

(** A type variable that refers to a node whose type key has no rule in the
    step 0.6 to 0.7. *)
Definition int_imm_node : node :=
  Node "IntImm" (Some {["name" := "T"]}) None None [] [].
Definition unregistered_target_store : store :=
  Store [type_var_node; int_imm_node] [0; 1].

(** A buffer of version 0.6, whose type key has a list of three rules. *)
Definition buffer_node : node :=
  Node "Buffer" (Some {["name" := "A"; "scope" := "global"]}) None None [] [].
Definition buffer_store : store := Store [buffer_node] [0].

(** Two rule sets with the same two rules in opposite order. *)
Definition ab_map : gmap string entry :=
  {["Variable" := Chain [_rename "A"; _rename "B"]]}.
Definition ba_map : gmap string entry :=
  {["Variable" := Chain [_rename "B"; _rename "A"]]}.

(** Snapshot texts: the scenario of version 0.6.1, and a snapshot that is
    already at the terminal version. *)
Definition doc_variable_061 : json_doc := JsonDoc "0.6.1" 0 [] [variable_x].
Definition doc_current : json_doc := JsonDoc "0.9" 0 [] [tir_var_node].

(* ================================================================== *)
(** ** Predicates on stores, computations and rules *)

(** [same_shape σ σ']: the list [nodes] is untouched and no dict was
    created; dicts may have been updated in place. *)
Definition same_shape (σ σ' : store) : Prop :=
  nodes σ' = nodes σ ∧ length (heap σ') = length (heap σ).

(** [extends σ σ']: the list [nodes] of [σ'] is that of [σ] followed by the
    dicts created in between, in the order of their creation. *)
Definition extends (σ σ' : store) : Prop :=
  ∃ k, length (heap σ') = length (heap σ) + k ∧
       nodes σ' = nodes σ ++ seq (length (heap σ)) k.

(** A store is [canonical] when the list [nodes] refers to all dicts, in
    the order of their creation: the state [json.loads] produces. *)
Definition canonical (σ : store) : Prop :=
  nodes σ = seq 0 (length (heap σ)).

(** [keeps_shape m]: [m] updates dicts in place. *)
Definition keeps_shape {A} (m : M A) : Prop :=
  ∀ σ a σ', m σ = Ok (a, σ') → same_shape σ σ'.

(** A rule obeys the contract when it returns the dict it was given and
    only appends fresh dicts to the list: it neither removes nor moves an
    entry of [nodes]. *)
Definition rule_contract (f : rule) : Prop :=
  ∀ item σ item' σ', f item σ = Ok (item', σ') → item' = item ∧ extends σ σ'.

Definition entry_contract (e : entry) : Prop :=
  match e with
  | Single f => rule_contract f
  | Chain fs => Forall rule_contract fs
  end.

Definition map_contract (node_map : gmap string entry) : Prop :=
  ∀ tk e, node_map !! tk = Some e → entry_contract e.

(** [yields m a]: [m] updates dicts in place and returns [a]. *)
Definition yields {A} (m : M A) (a : A) : Prop :=
  ∀ σ a' σ', m σ = Ok (a', σ') → a' = a ∧ same_shape σ σ'.

(** [untouched n n']: the dict [n'] is [n], or [n] with its type key
    cleared (a tombstone). *)
Definition untouched (n n' : node) : Prop :=
  n' = n ∨ n' = set_type_key "" n.

(** An exception other than the [ValueError] of [upgrade_json]. *)
Definition ordinary (e : exn) : Prop :=
  match e with
  | ValueError (CannotUpdateFrom _) => False
  | _ => True
  end.

Section frame_predicates.

(** The dicts a rule may create. *)
Variable new_ok : node → Prop.

(** [heap_frame item σ σ']: between [σ] and [σ'] no dict other than [item]
    was changed, except that its type key may have been cleared; the dicts
    created in between satisfy [new_ok], up to the same exception. *)
Definition heap_frame (item : addr) (σ σ' : store) : Prop :=
  length (heap σ) ≤ length (heap σ') ∧
  ∀ b n', b ≠ item → heap σ' !! b = Some n' →
    match heap σ !! b with
    | Some n => untouched n n'
    | None => ∃ n0, new_ok n0 ∧ untouched n0 n'
    end.

(** [framed item R m]: [m] ends, with a result in [R] and a heap framed
    around [item], or with an ordinary exception. *)
Definition framed (item : addr) {A} (R : A → Prop) (m : M A) : Prop :=
  ∀ σ, match m σ with
       | Ok (a, σ') => R a ∧ heap_frame item σ σ'
       | Raise (e, _) => ordinary e
       | OutOfFuel => False
       end.

End frame_predicates.

(** The postcondition that holds of every result. *)
Definition any {A} : A → Prop := λ _, True.

(** A rule is framed when it returns the dict it was given, changes no
    other dict except for clearing type keys, and creates only dicts in
    [new_ok]. *)
Definition rule_frame (new_ok : node → Prop) (f : rule) : Prop :=
  ∀ item, framed new_ok item (λ item', item' = item) (f item).

Definition entry_frame (new_ok : node → Prop) (e : entry) : Prop :=
  match e with
  | Single f => rule_frame new_ok f
  | Chain fs => Forall (rule_frame new_ok) fs
  end.

Definition map_frame (new_ok : node → Prop)
    (node_map : gmap string entry) : Prop :=
  ∀ tk e, node_map !! tk = Some e → entry_frame new_ok e.

(** The dicts the attribute promotion creates: the root nodes the
    serializer returns. *)
Definition serialized (enc : string → json_doc) (n : node) : Prop :=
  ∃ s, doc_nodes (enc s) !! doc_root (enc s) = Some n.

(** The state of a pass over a table of [limit] entries: the store is the
    one of a loaded snapshot followed by created dicts, and no created dict
    has a registered rule. *)
Definition tail_quiet (node_map : gmap string entry) (limit : nat)
    (σ : store) : Prop :=
  canonical σ ∧ limit ≤ length (heap σ) ∧
  ∀ b n, limit ≤ b → heap σ !! b = Some n → node_map !! type_key n = None.

(** The rules of the steps 0.7 to 0.8 and 0.8 to 0.9 create no dict. *)
Definition no_new_node : node → Prop := λ _, False.

(** What the serializer must guarantee for the step 0.6 to 0.7 to end: the
    string node it returns is in the current format, that is, no rule of the
    step is registered for its type key. *)
Definition serializer_current (enc : string → json_doc) : Prop :=
  ∀ n, serialized enc n → node_map_06_to_07 enc !! type_key n = None.

(** A string of decimal digits. *)
Fixpoint digit_string (s : string) : Prop :=
  match s with
  | EmptyString => True
  | String c s' => is_Some (Ascii.is_nat c) ∧ digit_string s'
  end.

(* ================================================================== *)
(** * Properties *)

(** ** The string helpers on examples *)

Example py_int_examples :
  py_int "12" = Some 12%Z ∧ py_int " -1_0 " = Some (-10)%Z
  ∧ py_int "+007" = Some 7%Z ∧ py_int "" = None ∧ py_int "1__0" = None
  ∧ py_int "- 1" = None ∧ py_int "x" = None.
Proof. repeat split; reflexivity. Qed.

Example py_getitem_examples :
  py_getitem [10; 20; 30] 1 = Some 20 ∧ py_getitem [10; 20; 30] (-1) = Some 30
  ∧ py_getitem [10; 20; 30] 3 = None ∧ py_getitem [10; 20; 30] (-4) = None.
Proof. repeat split; reflexivity. Qed.

Example string_examples :
  startswith "0.6.1" "0.6" = true ∧ startswith "0.60" "0.6" = true
  ∧ startswith "0.3" "0.6" = false
  ∧ slice_from (String.length "relay.") "relay.TypeVar" = "TypeVar"
  ∧ pretty 0 = "0" ∧ pretty 10 = "10" ∧ pretty 123 = "123".
Proof. repeat split; reflexivity. Qed.

(** ** Running the monad *)

Lemma run_bind {A B} (m : M A) (k : A → M B) σ :
  (m ≫= k) σ =
  match m σ with
  | Ok (a, σ') => k a σ'
  | Raise e => Raise e
  | OutOfFuel => OutOfFuel
  end.
Proof. reflexivity. Qed.

Lemma run_bind_ok {A B} (m : M A) (k : A → M B) σ a σ' :
  m σ = Ok (a, σ') → (m ≫= k) σ = k a σ'.
Proof. intros H. rewrite run_bind, H. reflexivity. Qed.

Lemma run_bind_raise {A B} (m : M A) (k : A → M B) σ e :
  m σ = Raise e → (m ≫= k) σ = Raise e.
Proof. intros H. rewrite run_bind, H. reflexivity. Qed.

Lemma bind_inv_ok {A B} (m : M A) (k : A → M B) σ b σ'' :
  (m ≫= k) σ = Ok (b, σ'') →
  ∃ a σ', m σ = Ok (a, σ') ∧ k a σ' = Ok (b, σ'').
Proof.
  rewrite run_bind. destruct (m σ) as [[a σ']| |]; [eauto | done | done].
Qed.

Lemma run_ret {A} (a : A) σ : (mret a : M A) σ = Ok (a, σ).
Proof. reflexivity. Qed.

Lemma run_ret_bind {A B} (a : A) (k : A → M B) σ : (mret a ≫= k) σ = k a σ.
Proof. reflexivity. Qed.

(** ** The shape of the store *)



Lemma same_shape_refl σ : same_shape σ σ.
Proof. by split. Qed.

Lemma same_shape_trans σ1 σ2 σ3 :
  same_shape σ1 σ2 → same_shape σ2 σ3 → same_shape σ1 σ3.
Proof. intros [? ?] [? ?]. split; congruence. Qed.

Lemma same_shape_extends σ σ' : same_shape σ σ' → extends σ σ'.
Proof.
  intros [Hn Hh]. exists 0. rewrite Hn, Hh. simpl.
  split; [lia | by rewrite app_nil_r].
Qed.

Lemma extends_refl σ : extends σ σ.
Proof. apply same_shape_extends, same_shape_refl. Qed.

Lemma extends_trans σ1 σ2 σ3 :
  extends σ1 σ2 → extends σ2 σ3 → extends σ1 σ3.
Proof.
  intros (k1 & Hh1 & Hn1) (k2 & Hh2 & Hn2). exists (k1 + k2). split; [lia|].
  rewrite Hn2, Hn1, Hh1, <- app_assoc. f_equal.
  by rewrite seq_app.
Qed.

Lemma extends_prefix σ σ' : extends σ σ' → nodes σ `prefix_of` nodes σ'.
Proof. intros (k & _ & ->). by eexists. Qed.

Lemma extends_length σ σ' :
  extends σ σ' → length (nodes σ) ≤ length (nodes σ').
Proof. intros (k & _ & ->). rewrite length_app. lia. Qed.

Lemma extends_lookup σ σ' i a :
  extends σ σ' → nodes σ !! i = Some a → nodes σ' !! i = Some a.
Proof. intros (k & _ & ->) H. by apply lookup_app_l_Some. Qed.


Lemma extends_canonical σ σ' : canonical σ → extends σ σ' → canonical σ'.
Proof.
  unfold canonical. intros Hc (k & Hh & Hn).
  by rewrite Hn, Hc, Hh, seq_app.
Qed.

(** ** Store primitives keep the shape *)


Lemma keeps_shape_ret {A} (a : A) : keeps_shape (mret a : M A).
Proof. intros σ a' σ' [= _ <-]. apply same_shape_refl. Qed.

Lemma keeps_shape_bind {A B} (m : M A) (k : A → M B) :
  keeps_shape m → (∀ a, keeps_shape (k a)) → keeps_shape (m ≫= k).
Proof.
  intros Hm Hk σ b σ'' (a & σ' & H1 & H2)%bind_inv_ok.
  eapply same_shape_trans; [by eapply Hm | by eapply Hk].
Qed.

Lemma keeps_shape_raise {A} e : keeps_shape (raise e : M A).
Proof. intros σ a σ' [=]. Qed.

Lemma keeps_shape_deref a : keeps_shape (deref a).
Proof.
  intros σ n σ'. unfold deref. destruct (heap σ !! a); [|done].
  intros [= _ <-]. apply same_shape_refl.
Qed.

Lemma keeps_shape_assign a n : keeps_shape (assign a n).
Proof.
  intros σ [] σ'. unfold assign. case_decide; [|done].
  intros [= <-]. split; simpl; [done | by rewrite length_insert].
Qed.

Lemma keeps_shape_nodes_getitem i : keeps_shape (nodes_getitem i).
Proof.
  intros σ a σ'. unfold nodes_getitem. destruct (py_getitem _ _); [|done].
  intros [= _ <-]. apply same_shape_refl.
Qed.

Lemma keeps_shape_py_assert b msg : keeps_shape (py_assert b msg).
Proof. destruct b; [apply keeps_shape_ret | apply keeps_shape_raise]. Qed.

Create HintDb shape discriminated.
#[local] Hint Resolve keeps_shape_ret keeps_shape_raise keeps_shape_deref
  keeps_shape_assign keeps_shape_nodes_getitem keeps_shape_py_assert : shape.

Ltac solve_shape :=
  repeat first
    [ apply keeps_shape_bind; [|intros ?]
    | progress (eauto with shape)
    | match goal with
      | |- keeps_shape (match ?x with _ => _ end) => destruct x
      | |- keeps_shape (if ?b then _ else _) => destruct b
      end ].

Lemma keeps_shape_get_type_key item : keeps_shape (get_type_key item).
Proof. unfold get_type_key. solve_shape. Qed.

Lemma keeps_shape_put_type_key item tk : keeps_shape (put_type_key item tk).
Proof. unfold put_type_key. solve_shape. Qed.

Lemma keeps_shape_get_attrs item : keeps_shape (get_attrs item).
Proof. unfold get_attrs. solve_shape. Qed.
#[local] Hint Resolve keeps_shape_get_type_key keeps_shape_put_type_key
  keeps_shape_get_attrs : shape.

Lemma keeps_shape_attrs_getitem item key : keeps_shape (attrs_getitem item key).
Proof. unfold attrs_getitem. solve_shape. Qed.

Lemma keeps_shape_attrs_contains item key :
  keeps_shape (attrs_contains item key).
Proof. unfold attrs_contains. solve_shape. Qed.

Lemma keeps_shape_attrs_setitem item key v :
  keeps_shape (attrs_setitem item key v).
Proof. unfold attrs_setitem. solve_shape. Qed.

Lemma keeps_shape_attrs_delitem item key :
  keeps_shape (attrs_delitem item key).
Proof. unfold attrs_delitem. solve_shape. Qed.
#[local] Hint Resolve keeps_shape_attrs_getitem keeps_shape_attrs_contains
  keeps_shape_attrs_setitem keeps_shape_attrs_delitem : shape.

(** ** The contract of a rewrite rule *)




Lemma map_contract_of_list (l : list (string * entry)) :
  Forall (λ p, entry_contract p.2) l → map_contract (list_to_map l).
Proof.
  intros Hl tk e Hin%elem_of_list_to_map_2.
  rewrite Forall_forall in Hl. exact (Hl _ Hin).
Qed.


Lemma yields_ret {A} (a : A) : yields (mret a : M A) a.
Proof. intros σ a' σ' [= <- <-]. split; [done | apply same_shape_refl]. Qed.

Lemma yields_bind {A B} (m : M A) (k : A → M B) b :
  keeps_shape m → (∀ a, yields (k a) b) → yields (m ≫= k) b.
Proof.
  intros Hm Hk σ b' σ'' (a & σ' & H1 & H2)%bind_inv_ok.
  destruct (Hk _ _ _ _ H2) as [-> ?]. split; [done|].
  eapply same_shape_trans; [by eapply Hm | done].
Qed.

Lemma yields_contract (f : rule) :
  (∀ item, yields (f item) item) → rule_contract f.
Proof.
  intros Hf item σ item' σ' H. destruct (Hf _ _ _ _ H).
  split; [done | by apply same_shape_extends].
Qed.

Ltac solve_yields :=
  apply yields_contract; intros ?;
  repeat first
    [ apply yields_ret
    | apply yields_bind; [solve_shape | intros ?] ].

Lemma _initialize_virtual_device_contract :
  rule_contract _initialize_virtual_device.
Proof. unfold _initialize_virtual_device. solve_yields. Qed.

Lemma _initialize_module_attributes_contract :
  rule_contract _initialize_module_attributes.
Proof. unfold _initialize_module_attributes. solve_yields. Qed.

Lemma _ftype_var_contract : rule_contract _ftype_var.
Proof. unfold _ftype_var. solve_yields. Qed.

Lemma _rename_contract new_name : rule_contract (_rename new_name).
Proof. unfold _rename. solve_yields. Qed.

Lemma _update_tir_var_contract new_name :
  rule_contract (_update_tir_var new_name).
Proof. unfold _update_tir_var. solve_yields. Qed.

Lemma _update_global_key_contract : rule_contract _update_global_key.
Proof. unfold _update_global_key. solve_yields. Qed.

Lemma _update_from_std_str_contract enc key :
  rule_contract (_update_from_std_str enc key).
Proof.
  intros item σ item' σ'. unfold _update_from_std_str.
  intros (s & σ1 & H1 & H)%bind_inv_ok.
  apply keeps_shape_attrs_getitem in H1 as [Hn1 Hh1].
  apply bind_inv_ok in H as (vn & σ2 & H2 & H).
  assert (σ2 = σ1) as ->.
  { destruct (doc_nodes _ !! _); [by injection H2 | done]. }
  apply bind_inv_ok in H as (val & σ3 & [= <- <-] & H).
  apply bind_inv_ok in H as (sidx & σ4 & [= <- <-] & H).
  apply bind_inv_ok in H as ([] & σ5 & [= <-] & H).
  apply bind_inv_ok in H as ([] & σ6 & H6 & [= <- <-]).
  apply keeps_shape_attrs_setitem in H6 as [Hn6 Hh6]. simpl in *.
  split; [done|]. exists 1. rewrite Hn6, Hh6, Hn1, Hh1, length_app. simpl.
  split; [lia | done].
Qed.

Create HintDb rules discriminated.
#[local] Hint Resolve _initialize_virtual_device_contract
  _initialize_module_attributes_contract _ftype_var_contract _rename_contract
  _update_tir_var_contract _update_global_key_contract
  _update_from_std_str_contract : rules.

Ltac solve_map_contract :=
  apply map_contract_of_list;
  repeat (apply Forall_cons; split;
          [simpl; repeat (first [apply Forall_cons; split | by apply Forall_nil]);
           auto with rules |]);
  by apply Forall_nil.

Lemma node_map_08_to_09_contract : map_contract node_map_08_to_09.
Proof. unfold node_map_08_to_09, node_map_08_to_09_items. solve_map_contract. Qed.

Lemma node_map_07_to_08_contract : map_contract node_map_07_to_08.
Proof. unfold node_map_07_to_08, node_map_07_to_08_items. solve_map_contract. Qed.

Lemma node_map_06_to_07_contract enc : map_contract (node_map_06_to_07 enc).
Proof. unfold node_map_06_to_07, node_map_06_to_07_items. solve_map_contract. Qed.

Lemma revisit_map_contract : map_contract revisit_map.
Proof. unfold revisit_map. solve_map_contract. Qed.

(** The keys of each dict literal are distinct, so the dict holds every
    item of the literal. *)
Lemma node_map_items_NoDup enc :
  NoDup (node_map_08_to_09_items.*1)
  ∧ NoDup (node_map_07_to_08_items.*1)
  ∧ NoDup ((node_map_06_to_07_items enc).*1).
Proof. repeat split; apply (bool_decide_unpack _); vm_compute; exact I. Qed.

(** ** One visit and one pass under the contract *)

Lemma get_type_key_inv item σ tk σ' :
  get_type_key item σ = Ok (tk, σ') →
  σ' = σ ∧ ∃ n, heap σ !! item = Some n ∧ tk = type_key n.
Proof.
  unfold get_type_key. rewrite run_bind. unfold deref.
  destruct (heap σ !! item) as [n|]; [|done].
  intros [= <- <-]. eauto.
Qed.

Lemma get_type_key_ok item σ n :
  heap σ !! item = Some n → get_type_key item σ = Ok (type_key n, σ).
Proof.
  intros H. unfold get_type_key. rewrite run_bind. unfold deref. by rewrite H.
Qed.

Lemma nodes_setitem_id idx item σ :
  nodes σ !! idx = Some item → nodes_setitem idx item σ = Ok (tt, σ).
Proof.
  intros H. unfold nodes_setitem.
  rewrite decide_True by (by eapply lookup_lt_Some).
  rewrite list_insert_id by done. by destruct σ.
Qed.

Lemma _updater_visit_unregistered node_map idx item σ n :
  nodes σ !! idx = Some item →
  heap σ !! item = Some n →
  node_map !! type_key n = None →
  _updater_visit node_map idx item σ = Ok (tt, σ).
Proof.
  intros Hidx Hn Hnone. unfold _updater_visit.
  rewrite (run_bind_ok _ _ _ _ _ (get_type_key_ok _ _ _ Hn)), Hnone.
  rewrite (run_ret_bind item). by apply nodes_setitem_id.
Qed.

Lemma run_chain_contract fs :
  Forall rule_contract fs → rule_contract (run_chain fs).
Proof.
  induction 1 as [|f fs Hf _ IH]; intros item σ item' σ'; simpl.
  - intros [= <- <-]. split; [done | apply extends_refl].
  - intros (it1 & σ1 & H1 & H2)%bind_inv_ok.
    destruct (Hf _ _ _ _ H1) as [-> E1].
    destruct (IH _ _ _ _ H2) as [-> E2].
    split; [done | by eapply extends_trans].
Qed.

(** The item a visit stores is the one the rules of the tag return. *)
Lemma _updater_visit_extends node_map idx item σ σ' :
  map_contract node_map →
  nodes σ !! idx = Some item →
  _updater_visit node_map idx item σ = Ok (tt, σ') →
  extends σ σ'.
Proof.
  intros Hmap Hidx. unfold _updater_visit.
  intros (tk & σ0 & [-> _]%get_type_key_inv & H)%bind_inv_ok.
  apply bind_inv_ok in H as (item' & σ1 & Hrule & Hset).
  assert (item' = item ∧ extends σ σ1) as [-> E].
  { destruct (node_map !! tk) as [[f|fs]|] eqn:Hlook.
    - by apply (Hmap _ _ Hlook).
    - by apply (run_chain_contract fs (Hmap _ _ Hlook)).
    - injection Hrule as <- <-. split; [done | apply extends_refl]. }
  rewrite nodes_setitem_id in Hset by (by eapply extends_lookup).
  by injection Hset as <-.
Qed.

Lemma _updater_loop_unfold node_map fuel idx σ :
  _updater_loop node_map fuel idx σ =
  match nodes σ !! idx with
  | None => Ok (idx, σ)
  | Some item =>
      match fuel with
      | O => OutOfFuel
      | S fuel' =>
          (_updater_visit node_map idx item;;
           _updater_loop node_map fuel' (S idx)) σ
      end
  end.
Proof. by destruct fuel. Qed.

Lemma _updater_loop_extends node_map fuel idx σ k σ' :
  map_contract node_map →
  idx ≤ length (nodes σ) →
  _updater_loop node_map fuel idx σ = Ok (k, σ') →
  extends σ σ' ∧ k = length (nodes σ').
Proof.
  intros Hmap. revert idx σ.
  induction fuel as [|fuel IH]; intros idx σ Hle;
    rewrite _updater_loop_unfold;
    destruct (nodes σ !! idx) as [item|] eqn:Hidx; try done.
  - intros [= <- <-]. apply lookup_ge_None in Hidx.
    split; [apply extends_refl | lia].
  - intros ([] & σ1 & Hv & Hl)%bind_inv_ok.
    apply _updater_visit_extends in Hv; [|done..].
    apply lookup_lt_Some in Hidx.
    apply IH in Hl as [E ->]; [|apply extends_length in Hv; lia].
    split; [by eapply extends_trans | done].
  - intros [= <- <-]. apply lookup_ge_None in Hidx.
    split; [apply extends_refl | lia].
Qed.

(** A pass over a table in which no node has a registered rule visits
    every index and changes nothing. *)
Lemma _updater_loop_unregistered node_map fuel idx σ :
  (∀ i item, idx ≤ i → nodes σ !! i = Some item →
             ∃ n, heap σ !! item = Some n ∧ node_map !! type_key n = None) →
  idx ≤ length (nodes σ) →
  length (nodes σ) ≤ idx + fuel →
  _updater_loop node_map fuel idx σ = Ok (length (nodes σ), σ).
Proof.
  revert idx. induction fuel as [|fuel IH]; intros idx Hall Hle Hfuel;
    rewrite _updater_loop_unfold;
    destruct (nodes σ !! idx) as [item|] eqn:Hidx.
  - apply lookup_lt_Some in Hidx. lia.
  - apply lookup_ge_None in Hidx. do 2 f_equal. lia.
  - destruct (Hall idx item (le_n _) Hidx) as (n & Hn & Hnone).
    rewrite (run_bind_ok _ _ _ _ _
               (_updater_visit_unregistered _ _ _ _ _ Hidx Hn Hnone)).
    apply lookup_lt_Some in Hidx.
    apply IH; [|lia..]. intros i it Hi. apply Hall. lia.
  - apply lookup_ge_None in Hidx. do 2 f_equal. lia.
Qed.

Lemma create_updater_inv node_map from_ver to_ver fuel d d' :
  create_updater node_map from_ver to_ver fuel d = Ok d' →
  startswith (tvm_version d) from_ver = true ∧
  ∃ k, _updater_loop node_map fuel 0 (mem d) = Ok (k, mem d') ∧
       d' = PyData to_ver (root d) (b64ndarrays d) (mem d').
Proof.
  unfold create_updater. destruct (startswith _ _); [|done].
  destruct (_updater_loop _ _ _ _) as [[k σ]|[e τ]|]; [|done..].
  intros [= <-]. eauto.
Qed.

Lemma create_updater_canonical node_map from_ver to_ver fuel d d' :
  map_contract node_map →
  canonical (mem d) →
  create_updater node_map from_ver to_ver fuel d = Ok d' →
  canonical (mem d') ∧ tvm_version d' = to_ver.
Proof.
  intros Hmap Hc (_ & k & Hl & ->)%create_updater_inv. simpl. split; [|done].
  apply _updater_loop_extends in Hl as [E _]; [|done|lia].
  by eapply extends_canonical.
Qed.

(** ** What a rule may change in the heap *)


Lemma untouched_refl n : untouched n n.
Proof. by left. Qed.

Lemma untouched_trans n1 n2 n3 :
  untouched n1 n2 → untouched n2 n3 → untouched n1 n3.
Proof. intros [->| ->] [->| ->]; by (left + right). Qed.


Section frame.

Variable new_ok : node → Prop.


Lemma heap_frame_refl item σ : heap_frame new_ok item σ σ.
Proof.
  split; [done|]. intros b n' _ ->. apply untouched_refl.
Qed.

Lemma heap_frame_same_heap item σ σ' :
  heap σ' = heap σ → heap_frame new_ok item σ σ'.
Proof.
  intros Hh. split; [by rewrite Hh|]. intros b n' _. rewrite Hh.
  intros ->. apply untouched_refl.
Qed.

Lemma heap_frame_trans item σ1 σ2 σ3 :
  heap_frame new_ok item σ1 σ2 → heap_frame new_ok item σ2 σ3 →
  heap_frame new_ok item σ1 σ3.
Proof.
  intros [Hl1 H1] [Hl2 H2]. split; [lia|]. intros b n3 Hb Hn3.
  specialize (H2 b n3 Hb Hn3).
  destruct (heap σ2 !! b) as [n2|] eqn:Hn2.
  - specialize (H1 b n2 Hb Hn2). destruct (heap σ1 !! b) as [n1|].
    + by eapply untouched_trans.
    + destruct H1 as (n0 & ? & ?). exists n0.
      split; [done | by eapply untouched_trans].
  - apply lookup_ge_None in Hn2.
    rewrite lookup_ge_None_2 by lia. done.
Qed.



Lemma framed_ret item {A} (R : A → Prop) a :
  R a → framed new_ok item R (mret a).
Proof. intros HR σ. split; [done | apply heap_frame_refl]. Qed.

Lemma framed_raise item {A} (R : A → Prop) e :
  ordinary e → framed new_ok item R (raise e).
Proof. intros He σ. exact He. Qed.

Lemma framed_bind item {A B} (R1 : A → Prop) (R2 : B → Prop)
    (m : M A) (k : A → M B) :
  framed new_ok item R1 m → (∀ a, R1 a → framed new_ok item R2 (k a)) →
  framed new_ok item R2 (m ≫= k).
Proof.
  intros Hm Hk σ. rewrite run_bind. specialize (Hm σ).
  destruct (m σ) as [[a σ1]| |]; [|done..].
  destruct Hm as [Ha F1]. specialize (Hk a Ha σ1).
  destruct (k a σ1) as [[b σ2]| |]; [|done..].
  destruct Hk as [Hb F2]. split; [done | by eapply heap_frame_trans].
Qed.

Lemma framed_bind_any item {A B} (R : B → Prop) (m : M A) (k : A → M B) :
  framed new_ok item any m → (∀ a, framed new_ok item R (k a)) →
  framed new_ok item R (m ≫= k).
Proof. intros Hm Hk. eapply framed_bind; [exact Hm | intros a _; apply Hk]. Qed.

Lemma framed_deref item b : framed new_ok item any (deref b).
Proof.
  intros σ. unfold deref. destruct (heap σ !! b); [|done].
  split; [done | apply heap_frame_refl].
Qed.

Lemma framed_assign item n : framed new_ok item any (assign item n).
Proof.
  intros σ. unfold assign. case_decide; [|done]. split; [done|].
  split; [cbn [heap]; by rewrite length_insert|]. cbn [heap].
  intros b n' Hb. rewrite list_lookup_insert_ne by done.
  intros ->. apply untouched_refl.
Qed.

Lemma framed_tombstone item b : framed new_ok item any (put_type_key b "").
Proof.
  intros σ. unfold put_type_key. rewrite run_bind. unfold deref.
  destruct (heap σ !! b) as [n|] eqn:Hn; [|done].
  unfold assign. rewrite decide_True by (by eapply lookup_lt_Some).
  split; [done|]. split; [cbn [heap]; by rewrite length_insert|]. cbn [heap].
  intros c n' Hc. destruct (decide (c = b)) as [->|Hne].
  - rewrite list_lookup_insert_eq by (by eapply lookup_lt_Some).
    intros [= <-]. rewrite Hn. by right.
  - rewrite list_lookup_insert_ne by done. intros ->. apply untouched_refl.
Qed.

Lemma framed_alloc item n : new_ok n → framed new_ok item any (alloc n).
Proof.
  intros Hn σ. unfold alloc. split; [done|].
  split; [cbn [heap]; rewrite length_app; lia|]. cbn [heap]. intros b n' _ Hb.
  destruct (heap σ !! b) as [n0|] eqn:Hn0.
  - rewrite lookup_app_l in Hb by (by eapply lookup_lt_Some).
    rewrite Hn0 in Hb. injection Hb as <-. apply untouched_refl.
  - apply lookup_ge_None in Hn0. rewrite lookup_app_r in Hb by done.
    apply list_lookup_singleton_Some in Hb as [_ <-].
    exists n. split; [done | apply untouched_refl].
Qed.

Lemma framed_nodes_len item : framed new_ok item any nodes_len.
Proof. intros σ. split; [done | apply heap_frame_refl]. Qed.

Lemma framed_nodes_append item a : framed new_ok item any (nodes_append a).
Proof. intros σ. split; [done | by apply heap_frame_same_heap]. Qed.

Lemma framed_nodes_getitem item i : framed new_ok item any (nodes_getitem i).
Proof.
  intros σ. unfold nodes_getitem. destruct (py_getitem _ _); [|done].
  split; [done | apply heap_frame_refl].
Qed.

Lemma framed_nodes_setitem item idx a :
  framed new_ok item any (nodes_setitem idx a).
Proof.
  intros σ. unfold nodes_setitem. case_decide; [|done].
  split; [done | by apply heap_frame_same_heap].
Qed.

Lemma framed_py_assert item b msg : framed new_ok item any (py_assert b msg).
Proof. destruct b; [by apply framed_ret | by apply framed_raise]. Qed.

End frame.

Create HintDb frame discriminated.
#[local] Hint Resolve framed_deref framed_assign framed_tombstone
  framed_nodes_len framed_nodes_append framed_nodes_getitem
  framed_nodes_setitem framed_py_assert : frame.
#[local] Hint Extern 1 (ordinary _) => exact I : frame.
#[local] Hint Extern 1 (any _) => exact I : frame.

Ltac solve_framed :=
  repeat first
    [ progress (eauto with frame)
    | apply framed_ret; first [reflexivity | exact I]
    | apply framed_raise; exact I
    | apply framed_bind_any; [|intros ?]
    | match goal with
      | |- framed _ _ _ (match ?x with _ => _ end) => destruct x
      | |- framed _ _ _ (if ?b then _ else _) => destruct b
      end ].

Lemma framed_get_type_key new_ok item b :
  framed new_ok item any (get_type_key b).
Proof. unfold get_type_key. solve_framed. Qed.

Lemma framed_put_type_key new_ok item tk :
  framed new_ok item any (put_type_key item tk).
Proof. unfold put_type_key. solve_framed. Qed.

Lemma framed_get_attrs new_ok item b : framed new_ok item any (get_attrs b).
Proof. unfold get_attrs. solve_framed. Qed.
#[local] Hint Resolve framed_get_type_key framed_put_type_key
  framed_get_attrs : frame.

Lemma framed_attrs_getitem new_ok item b key :
  framed new_ok item any (attrs_getitem b key).
Proof. unfold attrs_getitem. solve_framed. Qed.

Lemma framed_attrs_contains new_ok item b key :
  framed new_ok item any (attrs_contains b key).
Proof. unfold attrs_contains. solve_framed. Qed.

Lemma framed_attrs_setitem new_ok item key v :
  framed new_ok item any (attrs_setitem item key v).
Proof. unfold attrs_setitem. solve_framed. Qed.

Lemma framed_attrs_delitem new_ok item key :
  framed new_ok item any (attrs_delitem item key).
Proof. unfold attrs_delitem. solve_framed. Qed.
#[local] Hint Resolve framed_attrs_getitem framed_attrs_contains
  framed_attrs_setitem framed_attrs_delitem : frame.




Lemma map_frame_of_list new_ok (l : list (string * entry)) :
  Forall (λ p, entry_frame new_ok p.2) l → map_frame new_ok (list_to_map l).
Proof.
  intros Hl tk e Hin%elem_of_list_to_map_2.
  rewrite Forall_forall in Hl. exact (Hl _ Hin).
Qed.

Lemma _initialize_virtual_device_frame new_ok :
  rule_frame new_ok _initialize_virtual_device.
Proof. intros item. unfold _initialize_virtual_device. solve_framed. Qed.

Lemma _initialize_module_attributes_frame new_ok :
  rule_frame new_ok _initialize_module_attributes.
Proof. intros item. unfold _initialize_module_attributes. solve_framed. Qed.

Lemma _ftype_var_frame new_ok : rule_frame new_ok _ftype_var.
Proof. intros item. unfold _ftype_var. solve_framed. Qed.

Lemma _rename_frame new_ok new_name : rule_frame new_ok (_rename new_name).
Proof. intros item. unfold _rename. solve_framed. Qed.

Lemma _update_tir_var_frame new_ok new_name :
  rule_frame new_ok (_update_tir_var new_name).
Proof. intros item. unfold _update_tir_var. solve_framed. Qed.

Lemma _update_global_key_frame new_ok : rule_frame new_ok _update_global_key.
Proof. intros item. unfold _update_global_key. solve_framed. Qed.


Lemma _update_from_std_str_frame enc key :
  rule_frame (serialized enc) (_update_from_std_str enc key).
Proof.
  intros item. unfold _update_from_std_str.
  apply framed_bind_any; [eauto with frame|intros str_val]. cbv zeta.
  apply (framed_bind _ _ (serialized enc)).
  - destruct (doc_nodes _ !! _) as [val|] eqn:Hval.
    + apply framed_ret. by exists str_val.
    + by apply framed_raise.
  - intros val Hval.
    apply framed_bind_any; [by apply framed_alloc|intros ?]. solve_framed.
Qed.

#[local] Hint Resolve _initialize_virtual_device_frame
  _initialize_module_attributes_frame _ftype_var_frame _rename_frame
  _update_tir_var_frame _update_global_key_frame
  _update_from_std_str_frame : rules.

Ltac solve_map_frame :=
  apply map_frame_of_list;
  repeat (apply Forall_cons; split;
          [simpl; repeat (first [apply Forall_cons; split | by apply Forall_nil]);
           auto with rules |]);
  by apply Forall_nil.

Lemma node_map_08_to_09_frame new_ok : map_frame new_ok node_map_08_to_09.
Proof. unfold node_map_08_to_09, node_map_08_to_09_items. solve_map_frame. Qed.

Lemma node_map_07_to_08_frame new_ok : map_frame new_ok node_map_07_to_08.
Proof. unfold node_map_07_to_08, node_map_07_to_08_items. solve_map_frame. Qed.

Lemma node_map_06_to_07_frame enc :
  map_frame (serialized enc) (node_map_06_to_07 enc).
Proof. unfold node_map_06_to_07, node_map_06_to_07_items. solve_map_frame. Qed.

(** ** One visit and one pass, framed *)

Lemma run_chain_frame new_ok fs :
  Forall (rule_frame new_ok) fs → rule_frame new_ok (run_chain fs).
Proof.
  induction 1 as [|f fs Hf _ IH]; intros item; cbn [run_chain].
  - by apply framed_ret.
  - eapply framed_bind; [apply Hf|]. intros item' ->. apply IH.
Qed.

Lemma _updater_visit_framed new_ok node_map idx item :
  map_frame new_ok node_map →
  framed new_ok item any (_updater_visit node_map idx item).
Proof.
  intros Hmap. unfold _updater_visit.
  apply framed_bind_any; [apply framed_get_type_key|intros tk].
  eapply framed_bind; [|intros item' _; apply framed_nodes_setitem].
  destruct (node_map !! tk) as [[f|fs]|] eqn:Hlook.
  - apply (Hmap _ _ Hlook).
  - apply (run_chain_frame _ _ (Hmap _ _ Hlook)).
  - by apply framed_ret.
Qed.

(** A pass raises ordinary exceptions only. *)
Lemma _updater_loop_ordinary new_ok node_map fuel idx σ e τ :
  map_frame new_ok node_map →
  _updater_loop node_map fuel idx σ = Raise (e, τ) → ordinary e.
Proof.
  intros Hmap. revert idx σ.
  induction fuel as [|fuel IH]; intros idx σ;
    rewrite _updater_loop_unfold;
    destruct (nodes σ !! idx) as [item|]; try done.
  rewrite run_bind.
  pose proof (_updater_visit_framed new_ok node_map idx item Hmap σ) as Hv.
  destruct (_updater_visit node_map idx item σ) as [[[] σ1]|[e1 τ1]|]; [|..].
  - apply IH.
  - by intros [= <- <-].
  - done.
Qed.

(** More fuel does not change the outcome of a pass that was not cut
    off. *)
Lemma _updater_loop_more_fuel node_map fuel fuel' idx σ :
  fuel ≤ fuel' →
  _updater_loop node_map fuel idx σ ≠ OutOfFuel →
  _updater_loop node_map fuel' idx σ = _updater_loop node_map fuel idx σ.
Proof.
  revert fuel' idx σ.
  induction fuel as [|fuel IH]; intros fuel' idx σ Hle;
    rewrite !(_updater_loop_unfold _ _ idx σ);
    destruct (nodes σ !! idx) as [item|]; try done.
  destruct fuel' as [|fuel']; [lia|].
  rewrite !run_bind.
  destruct (_updater_visit node_map idx item σ) as [[[] σ1]| |]; [|done..].
  apply IH. lia.
Qed.

(** Dicts without a registered rule at the start of a pass are, at its
    end, what they were, up to a cleared type key. *)
Lemma _updater_loop_unregistered_nodes new_ok node_map fuel idx σ k σ' :
  map_frame new_ok node_map →
  node_map !! "" = None →
  _updater_loop node_map fuel idx σ = Ok (k, σ') →
  ∀ b n, heap σ !! b = Some n → node_map !! type_key n = None →
         ∃ n', heap σ' !! b = Some n' ∧ untouched n n'.
Proof.
  intros Hmap Hempty. revert idx σ.
  induction fuel as [|fuel IH]; intros idx σ;
    rewrite _updater_loop_unfold;
    destruct (nodes σ !! idx) as [item|] eqn:Hidx; try done;
    try (intros [= <- <-] b n Hb _; exists n;
         split; [done | apply untouched_refl]).
  rewrite run_bind.
  pose proof (_updater_visit_framed new_ok node_map idx item Hmap σ) as Hv.
  destruct (_updater_visit node_map idx item σ) as [[[] σ1]| |] eqn:Hvisit;
    [|done..].
  destruct Hv as [_ [Hlen Hframe]].
  intros Hloop b n Hb Hnone.
  destruct (decide (b = item)) as [->|Hne].
  - rewrite (_updater_visit_unregistered _ _ _ _ _ Hidx Hb Hnone) in Hvisit.
    injection Hvisit as <-. by eapply IH.
  - assert (is_Some (heap σ1 !! b)) as [n1 Hn1].
    { apply lookup_lt_is_Some. apply lookup_lt_Some in Hb. lia. }
    pose proof (Hframe b n1 Hne Hn1) as Hun. rewrite Hb in Hun.
    assert (node_map !! type_key n1 = None) as Hnone1.
    { by destruct Hun as [->| ->]. }
    destruct (IH _ _ Hloop b n1 Hn1 Hnone1) as (n' & Hn' & Hun').
    exists n'. split; [done | by eapply untouched_trans].
Qed.

(** ** Running the store primitives forward *)

Lemma deref_ok a σ n : heap σ !! a = Some n → deref a σ = Ok (n, σ).
Proof. intros H. unfold deref. by rewrite H. Qed.

Lemma assign_ok a n0 n σ :
  heap σ !! a = Some n0 →
  assign a n σ = Ok (tt, Store (<[a := n]> (heap σ)) (nodes σ)).
Proof.
  intros H. unfold assign. by rewrite decide_True by (by eapply lookup_lt_Some).
Qed.

Lemma put_type_key_ok item tk σ n :
  heap σ !! item = Some n →
  put_type_key item tk σ =
  Ok (tt, Store (<[item := set_type_key tk n]> (heap σ)) (nodes σ)).
Proof.
  intros H. unfold put_type_key.
  rewrite (run_bind_ok _ _ _ _ _ (deref_ok _ _ _ H)). by eapply assign_ok.
Qed.

Lemma get_attrs_ok item σ n a :
  heap σ !! item = Some n → attrs n = Some a → get_attrs item σ = Ok (a, σ).
Proof.
  intros H Ha. unfold get_attrs.
  rewrite (run_bind_ok _ _ _ _ _ (deref_ok _ _ _ H)). by rewrite Ha.
Qed.

Lemma attrs_getitem_ok item key σ n a v :
  heap σ !! item = Some n → attrs n = Some a → a !! key = Some v →
  attrs_getitem item key σ = Ok (v, σ).
Proof.
  intros H Ha Hv. unfold attrs_getitem.
  rewrite (run_bind_ok _ _ _ _ _ (get_attrs_ok _ _ _ _ H Ha)). by rewrite Hv.
Qed.

Lemma attrs_contains_ok item key σ n a :
  heap σ !! item = Some n → attrs n = Some a →
  attrs_contains item key σ = Ok (bool_decide (is_Some (a !! key)), σ).
Proof.
  intros H Ha. unfold attrs_contains.
  by rewrite (run_bind_ok _ _ _ _ _ (get_attrs_ok _ _ _ _ H Ha)).
Qed.

Lemma attrs_setitem_ok item key v σ n a :
  heap σ !! item = Some n → attrs n = Some a →
  attrs_setitem item key v σ =
  Ok (tt, Store (<[item := set_attrs (<[key := v]> a) n]> (heap σ)) (nodes σ)).
Proof.
  intros H Ha. unfold attrs_setitem.
  rewrite (run_bind_ok _ _ _ _ _ (get_attrs_ok _ _ _ _ H Ha)).
  rewrite (run_bind_ok _ _ _ _ _ (deref_ok _ _ _ H)). by eapply assign_ok.
Qed.

Lemma attrs_delitem_ok item key σ n a v :
  heap σ !! item = Some n → attrs n = Some a → a !! key = Some v →
  attrs_delitem item key σ =
  Ok (tt, Store (<[item := set_attrs (delete key a) n]> (heap σ)) (nodes σ)).
Proof.
  intros H Ha Hv. unfold attrs_delitem.
  rewrite (run_bind_ok _ _ _ _ _ (get_attrs_ok _ _ _ _ H Ha)). rewrite Hv.
  rewrite (run_bind_ok _ _ _ _ _ (deref_ok _ _ _ H)). by eapply assign_ok.
Qed.

Lemma nodes_getitem_ok i σ a :
  py_getitem (nodes σ) i = Some a → nodes_getitem i σ = Ok (a, σ).
Proof. intros H. unfold nodes_getitem. by rewrite H. Qed.

(** ** The cross-reference rule [_ftype_var] *)

(** The rule on a node that refers to another node. *)
Lemma _ftype_var_ok item σ n a var z target m b name :
  heap σ !! item = Some n → attrs n = Some a → a !! "var" = Some var →
  py_int var = Some z →
  py_getitem (nodes σ) z = Some target →
  target ≠ item →
  heap σ !! target = Some m → attrs m = Some b → b !! "name" = Some name →
  startswith (type_key n) "relay." = true →
  _ftype_var item σ =
  Ok (item,
      Store (<[item := Node (slice_from 6 (type_key n))
                            (Some (delete "var" (<["name_hint" := name]> a)))
                            (global_key n) (repr_str n) (keys n) (data n)]>
               (<[target := set_type_key "" m]> (heap σ)))
            (nodes σ)).
Proof.
  intros Hn Ha Hvar Hz Ht Hne Hm Hb Hname Hpre. unfold _ftype_var.
  rewrite (run_bind_ok _ _ _ _ _ (attrs_getitem_ok _ _ _ _ _ _ Hn Ha Hvar)).
  rewrite Hz; cbv beta iota.
  rewrite (run_ret_bind z).
  rewrite (run_bind_ok _ _ _ _ _ (nodes_getitem_ok _ _ _ Ht)).
  rewrite (run_bind_ok _ _ _ _ _ (attrs_getitem_ok _ _ _ _ _ _ Hm Hb Hname)).
  rewrite (run_bind_ok _ _ _ _ _ (attrs_setitem_ok _ "name_hint" name _ _ _ Hn Ha)).
  set (n1 := set_attrs (<["name_hint" := name]> a) n).
  assert (H1 : heap (Store (<[item := n1]> (heap σ)) (nodes σ)) !! target = Some m).
  { cbn [heap nodes]. by rewrite list_lookup_insert_ne. }
  rewrite (run_bind_ok _ _ _ _ _ (put_type_key_ok _ "" _ _ H1)).
  cbn [heap nodes].
  set (h2 := <[target := set_type_key "" m]> (<[item := n1]> (heap σ))).
  assert (H2 : heap (Store h2 (nodes σ)) !! item = Some n1).
  { cbn [heap nodes]. unfold h2. rewrite list_lookup_insert_ne by done.
    apply list_lookup_insert_eq. by eapply lookup_lt_Some. }
  assert (Hv1 : <["name_hint" := name]> a !! "var" = Some var).
  { by rewrite lookup_insert_ne. }
  rewrite (run_bind_ok _ _ _ _ _
             (attrs_delitem_ok _ "var" _ n1 _ _ H2 eq_refl Hv1)).
  cbn [heap nodes].
  set (n3 := set_attrs (delete "var" (<["name_hint" := name]> a)) n1).
  assert (H3 : heap (Store (<[item := n3]> h2) (nodes σ)) !! item = Some n3).
  { cbn [heap nodes]. apply list_lookup_insert_eq. unfold h2.
    rewrite !length_insert. by eapply lookup_lt_Some. }
  rewrite (run_bind_ok _ _ _ _ _ (get_type_key_ok _ _ _ H3)).
  change (type_key n3) with (type_key n). rewrite Hpre.
  unfold py_assert. rewrite (run_ret_bind tt).
  rewrite (run_bind_ok _ _ _ _ _ (get_type_key_ok _ _ _ H3)).
  rewrite (run_bind_ok _ _ _ _ _ (put_type_key_ok _ _ _ _ H3)).
  cbn [heap nodes].
  rewrite run_ret. unfold h2.
  rewrite list_insert_insert_eq.
  rewrite (list_insert_insert_ne _ item target) by done.
  rewrite list_insert_insert_eq.
  rewrite (list_insert_insert_ne _ target item) by done.
  reflexivity.
Qed.

(** The rule on a node whose ["var"] refers to the node itself: the type
    key is cleared before the assertion reads it.  The exception leaves the
    node with what the rule had written by then. *)
Lemma _ftype_var_self item σ n a var z name :
  heap σ !! item = Some n → attrs n = Some a → a !! "var" = Some var →
  py_int var = Some z →
  py_getitem (nodes σ) z = Some item →
  a !! "name" = Some name →
  _ftype_var item σ =
  Raise (AssertionError "",
         Store (<[item := Node ""
                            (Some (delete "var" (<["name_hint" := name]> a)))
                            (global_key n) (repr_str n) (keys n) (data n)]>
                  (heap σ))
               (nodes σ)).
Proof.
  intros Hn Ha Hvar Hz Ht Hname. unfold _ftype_var.
  rewrite (run_bind_ok _ _ _ _ _ (attrs_getitem_ok _ _ _ _ _ _ Hn Ha Hvar)).
  rewrite Hz; cbv beta iota.
  rewrite (run_ret_bind z).
  rewrite (run_bind_ok _ _ _ _ _ (nodes_getitem_ok _ _ _ Ht)).
  rewrite (run_bind_ok _ _ _ _ _ (attrs_getitem_ok _ _ _ _ _ _ Hn Ha Hname)).
  rewrite (run_bind_ok _ _ _ _ _
             (attrs_setitem_ok _ "name_hint" name _ _ _ Hn Ha)).
  set (n1 := set_attrs (<["name_hint" := name]> a) n).
  assert (Hlt : item < length (heap σ)) by (by eapply lookup_lt_Some).
  assert (H1 : heap (Store (<[item := n1]> (heap σ)) (nodes σ)) !! item
               = Some n1).
  { cbn [heap nodes]. by apply list_lookup_insert_eq. }
  rewrite (run_bind_ok _ _ _ _ _ (put_type_key_ok _ "" _ _ H1)).
  cbn [heap nodes].
  rewrite list_insert_insert_eq.
  set (n2 := set_type_key "" n1).
  assert (H2 : heap (Store (<[item := n2]> (heap σ)) (nodes σ)) !! item
               = Some n2).
  { cbn [heap nodes]. by apply list_lookup_insert_eq. }
  assert (Hv1 : <["name_hint" := name]> a !! "var" = Some var).
  { by rewrite lookup_insert_ne. }
  rewrite (run_bind_ok _ _ _ _ _
             (attrs_delitem_ok _ "var" _ n2 _ _ H2 eq_refl Hv1)).
  cbn [heap nodes].
  rewrite list_insert_insert_eq.
  set (n3 := set_attrs _ n2).
  assert (H3 : heap (Store (<[item := n3]> (heap σ)) (nodes σ)) !! item
               = Some n3).
  { cbn [heap nodes]. by apply list_lookup_insert_eq. }
  rewrite (run_bind_ok _ _ _ _ _ (get_type_key_ok _ _ _ H3)).
  reflexivity.
Qed.

(** The referenced node is read before it is written: when it has no
    attribute map or no ["name"], the rule raises at the read, and the store
    is still the one the rule was given. *)
Lemma _ftype_var_read_raises item σ n a var z target m :
  heap σ !! item = Some n → attrs n = Some a → a !! "var" = Some var →
  py_int var = Some z →
  py_getitem (nodes σ) z = Some target →
  heap σ !! target = Some m →
  (attrs m = None → _ftype_var item σ = Raise (KeyError "attrs", σ))
  ∧ (∀ b, attrs m = Some b → b !! "name" = None →
          _ftype_var item σ = Raise (KeyError "name", σ)).
Proof.
  intros Hn Ha Hvar Hz Ht Hm.
  assert (∀ p, attrs_getitem target "name" σ = Raise p →
               _ftype_var item σ = Raise p) as Hread.
  { intros p Hp. unfold _ftype_var.
    rewrite (run_bind_ok _ _ _ _ _
               (attrs_getitem_ok _ _ _ _ _ _ Hn Ha Hvar)).
    rewrite Hz; cbv beta iota.
    rewrite (run_ret_bind z).
    rewrite (run_bind_ok _ _ _ _ _ (nodes_getitem_ok _ _ _ Ht)).
    by rewrite (run_bind_raise _ _ _ _ Hp). }
  split.
  - intros Hb. apply Hread. unfold attrs_getitem, get_attrs.
    rewrite !run_bind. rewrite (deref_ok _ _ _ Hm). by rewrite Hb.
  - intros b Hb Hname. apply Hread. unfold attrs_getitem.
    rewrite (run_bind_ok _ _ _ _ _ (get_attrs_ok _ _ _ _ Hm Hb)).
    by rewrite Hname.
Qed.

(** ** Reading back a decimal index *)

Lemma digit_not_space c : is_Some (Ascii.is_nat c) → is_py_space c = false.
Proof. destruct c as [[] [] [] [] [] [] [] []]; by intros [? [=]]. Qed.

Lemma digit_string_strip s : digit_string s → strip s = s.
Proof.
  intros Hs. unfold strip.
  assert (lstrip s = s) as ->.
  { destruct s as [|c s]; [done|]. destruct Hs as [Hc _]. cbn [lstrip].
    by rewrite digit_not_space. }
  induction s as [|c s IH]; [done|]. destruct Hs as [Hc Hs]. cbn [rstrip].
  rewrite IH by done. destruct s; [|done]. by rewrite digit_not_space.
Qed.

Lemma pretty_N_char_digit d :
  (d < 10)%N → Ascii.is_nat (pretty_N_char d) = Some (N.to_nat d).
Proof.
  intros Hd.
  assert (d = 0 ∨ d = 1 ∨ d = 2 ∨ d = 3 ∨ d = 4 ∨ d = 5 ∨ d = 6 ∨ d = 7
          ∨ d = 8 ∨ d = 9)%N as Hcases by lia.
  by repeat (destruct Hcases as [->|Hcases]); [..|subst d].
Qed.

Lemma pretty_N_go_digits x s :
  digit_string s → digit_string (pretty_N_go x s).
Proof.
  revert s. induction (N.lt_wf_0 x) as [x _ IH]; intros s Hs.
  assert (x = 0 ∨ 0 < x)%N as [->|Hx] by lia; [by rewrite pretty_N_go_0|].
  rewrite pretty_N_go_step by done. apply IH; [by apply N.div_lt|].
  split; [|done]. rewrite pretty_N_char_digit; [done|].
  by apply N.mod_lt.
Qed.

Lemma int_digits_pretty_N_go x s :
  (0 < x)%N →
  int_digits (pretty_N_go x s) 0 false = int_digits s x true.
Proof.
  revert s. induction (N.lt_wf_0 x) as [x _ IH]; intros s Hx.
  rewrite pretty_N_go_step by done.
  assert (x `mod` 10 < 10)%N as Hmod by (by apply N.mod_lt).
  pose proof (N.div_mod x 10 ltac:(done)) as Hdm.
  assert (x `div` 10 = 0 ∨ 0 < x `div` 10)%N as [H0|Hpos] by lia.
  - rewrite H0, pretty_N_go_0. cbn [int_digits].
    rewrite pretty_N_char_digit by done. f_equal. lia.
  - rewrite IH; [|by apply N.div_lt|done]. cbn [int_digits].
    rewrite pretty_N_char_digit by done. f_equal. lia.
Qed.

Lemma py_int_digit_string s :
  digit_string s → py_int s = Z.of_N <$> int_digits s 0%N false.
Proof.
  intros Hs. unfold py_int. rewrite digit_string_strip by done.
  destruct s as [|c s]; [done|]. destruct Hs as [Hc _].
  destruct c as [[] [] [] [] [] [] [] []]; try done; by destruct Hc as [? [=]].
Qed.

(** The index that the attribute promotion writes is read back by [int]. *)
Lemma py_int_pretty (n : nat) : py_int (pretty n) = Some (Z.of_nat n).
Proof.
  unfold pretty, pretty_nat, pretty, pretty_N.
  case_decide as Hn.
  - replace n with 0 by lia. reflexivity.
  - rewrite py_int_digit_string by (by apply pretty_N_go_digits).
    rewrite int_digits_pretty_N_go by lia. cbn. f_equal. lia.
Qed.

Lemma py_getitem_nat {A} (l : list A) (i : nat) :
  py_getitem l (Z.of_nat i) = l !! i.
Proof.
  unfold py_getitem. rewrite (proj2 (Z.leb_le _ _)) by lia.
  by rewrite Nat2Z.id.
Qed.

(** ** The version chain driver *)

Lemma startswith_app v p : startswith v p = true → ∃ r, v = p +:+ r.
Proof.
  unfold startswith. revert v.
  induction p as [|c p IH]; intros v.
  - by exists v.
  - destruct v as [|c' v]; cbn [String.prefix]; [done|].
    destruct (ascii_dec c c') as [<-|]; [|done].
    intros [r ->]%IH. by exists r.
Qed.

Lemma known_versions_exclusive v V W es es' :
  (V, es) ∈ known_versions → (W, es') ∈ known_versions →
  startswith v V = true → startswith v W = true → V = W.
Proof.
  intros HV HW. unfold known_versions in *. set_unfold.
  destruct HV as [?|[?|[?|[]]]], HW as [?|[?|[?|[]]]]; simplify_eq; try done;
    intros [r ->]%startswith_app; intros Hpre; by vm_compute in Hpre.
Qed.

Lemma upgrade_json_driver enc fuel doc :
  upgrade_json enc fuel doc = version_chain_driver enc fuel doc.
Proof.
  unfold upgrade_json, version_chain_driver, source_state, known_versions.
  cbn [List.find fst json_loads tvm_version].
  destruct (startswith (doc_version doc) "0.6");
    [|destruct (startswith (doc_version doc) "0.7");
      [|destruct (startswith (doc_version doc) "0.8"); [|done]]];
    cbn [run_edges run_edge].
  - destruct (create_updater_06_to_07 _ _ _) as [d1| |]; [|done..].
    cbn [result_bind].
    destruct (create_updater_07_to_08 _ d1) as [d2| |]; [|done..].
    cbn [result_bind]. by destruct (create_updater_08_to_09 _ d2).
  - destruct (create_updater_07_to_08 _ _) as [d2| |]; [|done..].
    cbn [result_bind]. by destruct (create_updater_08_to_09 _ d2).
  - by destruct (create_updater_08_to_09 _ _).
Qed.


(** ** Writing a snapshot and reading it back *)

Lemma mapM_lookup_seq (l : list node) :
  mapM (λ a, l !! a) (seq 0 (length l)) = Some l.
Proof.
  apply mapM_Some. apply Forall2_same_length_lookup_2.
  - by rewrite length_seq.
  - intros i a n [-> _]%lookup_seq Hn. done.
Qed.

Lemma json_loads_canonical doc : canonical (mem (json_loads doc)).
Proof. reflexivity. Qed.

Lemma json_dumps_canonical d :
  canonical (mem d) →
  json_dumps d =
  Ok (JsonDoc (tvm_version d) (root d) (b64ndarrays d) (heap (mem d))).
Proof.
  unfold canonical, json_dumps. intros ->. by rewrite mapM_lookup_seq.
Qed.

Lemma json_loads_dumps d :
  canonical (mem d) →
  json_loads (JsonDoc (tvm_version d) (root d) (b64ndarrays d) (heap (mem d)))
  = d.
Proof.
  unfold canonical, json_loads. destruct d as [v r b [h ns]]; simpl.
  by intros ->.
Qed.


(** ** Enough fuel *)

Lemma canonical_lookup σ idx item :
  canonical σ → nodes σ !! idx = Some item →
  item = idx ∧ idx < length (heap σ).
Proof. unfold canonical. intros ->. by intros [-> ?]%lookup_seq. Qed.


Lemma _updater_visit_tail_quiet new_ok node_map limit idx item σ σ' :
  map_contract node_map → map_frame new_ok node_map →
  (∀ n, new_ok n → node_map !! type_key n = None) →
  node_map !! "" = None →
  idx < limit →
  nodes σ !! idx = Some item →
  tail_quiet node_map limit σ →
  _updater_visit node_map idx item σ = Ok (tt, σ') →
  tail_quiet node_map limit σ'.
Proof.
  intros Hc Hf Hnew Hempty Hidx Hlook (Hcan & Hlim & Hq) Hvisit.
  destruct (canonical_lookup _ _ _ Hcan Hlook) as [-> _].
  pose proof (_updater_visit_framed new_ok node_map idx idx Hf σ) as Hv.
  rewrite Hvisit in Hv. destruct Hv as [_ [Hlen Hframe]].
  apply _updater_visit_extends in Hvisit; [|done..].
  split; [by eapply extends_canonical|]. split; [lia|].
  intros b n' Hb Hn'.
  assert (b ≠ idx) as Hne by lia.
  specialize (Hframe b n' Hne Hn').
  destruct (heap σ !! b) as [n|] eqn:Hn.
  - specialize (Hq b n Hb Hn). by destruct Hframe as [->| ->].
  - destruct Hframe as (n0 & Hok%Hnew & [->| ->]); done.
Qed.

Lemma _updater_loop_enough_fuel new_ok node_map limit :
  map_contract node_map → map_frame new_ok node_map →
  (∀ n, new_ok n → node_map !! type_key n = None) →
  node_map !! "" = None →
  ∀ d idx σ,
    tail_quiet node_map limit σ → idx + d = limit →
    ∃ fuel, _updater_loop node_map fuel idx σ ≠ OutOfFuel.
Proof.
  intros Hc Hf Hnew Hempty.
  induction d as [|d IH]; intros idx σ Hq Hd.
  - destruct Hq as (Hcan & Hlim & Hq).
    assert (length (nodes σ) = length (heap σ)) as Hlen.
    { unfold canonical in Hcan. by rewrite Hcan, length_seq. }
    exists (length (nodes σ)).
    rewrite _updater_loop_unregistered; [done| |lia..].
    intros i item Hi Hlook.
    destruct (canonical_lookup _ _ _ Hcan Hlook) as [-> Hlt].
    destruct (lookup_lt_is_Some_2 _ _ Hlt) as [n Hn].
    exists n. split; [done|]. apply (Hq i); [lia | done].
  - assert (nodes σ !! idx = Some idx) as Hlook.
    { destruct Hq as (Hcan & Hlim & _). unfold canonical in Hcan.
      rewrite Hcan. apply lookup_seq. lia. }
    pose proof (_updater_visit_framed new_ok node_map idx idx Hf σ) as Hv.
    destruct (_updater_visit node_map idx idx σ) as [[[] σ1]| |] eqn:Hvisit;
      [| |done].
    + assert (tail_quiet node_map limit σ1) as Hq1.
      { apply (_updater_visit_tail_quiet new_ok node_map limit idx idx σ σ1);
        (done || lia). }
      destruct (IH (S idx) σ1 Hq1 ltac:(lia)) as [fuel Hfuel].
      exists (S fuel). rewrite _updater_loop_unfold, Hlook.
      by rewrite (run_bind_ok _ _ _ _ _ Hvisit).
    + exists 1. rewrite _updater_loop_unfold, Hlook.
      by rewrite (run_bind_raise _ _ _ _ Hvisit).
Qed.

(** A version step on a loaded snapshot ends when given enough fuel, and
    its outcome is the same for any larger fuel. *)
Lemma create_updater_enough_fuel new_ok node_map from_ver to_ver d :
  map_contract node_map → map_frame new_ok node_map →
  (∀ n, new_ok n → node_map !! type_key n = None) →
  node_map !! "" = None →
  canonical (mem d) →
  ∃ fuel0, create_updater node_map from_ver to_ver fuel0 d ≠ OutOfFuel ∧
    ∀ fuel, fuel0 ≤ fuel →
      create_updater node_map from_ver to_ver fuel d =
      create_updater node_map from_ver to_ver fuel0 d.
Proof.
  intros Hc Hf Hnew Hempty Hcan.
  assert (tail_quiet node_map (length (heap (mem d))) (mem d)) as Hq.
  { split; [done|]. split; [done|]. intros b n Hb Hn.
    apply lookup_lt_Some in Hn. lia. }
  destruct (_updater_loop_enough_fuel new_ok node_map _ Hc Hf Hnew Hempty
              (length (heap (mem d))) 0 (mem d) Hq eq_refl) as [fuel0 Hfuel0].
  exists fuel0. unfold create_updater.
  destruct (startswith _ _); [|by split].
  split.
  - by destruct (_updater_loop _ _ _ _) as [[? ?]|[? ?]|].
  - intros fuel Hle. by rewrite (_updater_loop_more_fuel _ fuel0 fuel).
Qed.

Lemma create_updater_ordinary new_ok node_map from_ver to_ver fuel d e :
  map_frame new_ok node_map →
  create_updater node_map from_ver to_ver fuel d = Raise e → ordinary e.
Proof.
  intros Hf. unfold create_updater. destruct (startswith _ _).
  - destruct (_updater_loop _ _ _ _) as [[? ?]|[e' τ]|] eqn:Hloop; try done.
    intros [= <-]. by eapply _updater_loop_ordinary.
  - by intros [= <-].
Qed.



Lemma run_edge_ordinary enc fuel ed d e :
  run_edge enc fuel ed d = Raise e → ordinary e.
Proof.
  destruct ed; cbn [run_edge].
  - apply (create_updater_ordinary _ _ _ _ _ _ _ (node_map_06_to_07_frame enc)).
  - apply (create_updater_ordinary _ _ _ _ _ _ _
             (node_map_07_to_08_frame no_new_node)).
  - apply (create_updater_ordinary _ _ _ _ _ _ _
             (node_map_08_to_09_frame no_new_node)).
Qed.

Lemma run_edge_canonical enc fuel ed d d' :
  canonical (mem d) → run_edge enc fuel ed d = Ok d' → canonical (mem d').
Proof.
  intros Hcan. destruct ed; cbn [run_edge]; intros H;
    eapply create_updater_canonical in H as [? _]; try done.
  - apply node_map_06_to_07_contract.
  - apply node_map_07_to_08_contract.
  - apply node_map_08_to_09_contract.
Qed.

Lemma run_edge_enough_fuel enc ed d :
  serializer_current enc → canonical (mem d) →
  ∃ fuel0, run_edge enc fuel0 ed d ≠ OutOfFuel ∧
    ∀ fuel, fuel0 ≤ fuel → run_edge enc fuel ed d = run_edge enc fuel0 ed d.
Proof.
  intros Henc Hcan. destruct ed; cbn [run_edge].
  - apply (create_updater_enough_fuel (serialized enc)); try done.
    + apply node_map_06_to_07_contract.
    + apply node_map_06_to_07_frame.
  - apply (create_updater_enough_fuel no_new_node); try done.
    + apply node_map_07_to_08_contract.
    + apply node_map_07_to_08_frame.
  - apply (create_updater_enough_fuel no_new_node); try done.
    + apply node_map_08_to_09_contract.
    + apply node_map_08_to_09_frame.
Qed.

Lemma run_edges_ordinary enc fuel es d e :
  run_edges enc fuel es d = Raise e → ordinary e.
Proof.
  revert d. induction es as [|ed es IH]; intros d; cbn [run_edges]; [done|].
  destruct (run_edge enc fuel ed d) as [d1|e1|] eqn:H1; cbn [result_bind].
  - apply IH.
  - intros [= <-]. by eapply run_edge_ordinary.
  - done.
Qed.

Lemma run_edges_enough_fuel enc es d :
  serializer_current enc → canonical (mem d) →
  ∃ fuel0, run_edges enc fuel0 es d ≠ OutOfFuel ∧
    (∀ fuel, fuel0 ≤ fuel → run_edges enc fuel es d = run_edges enc fuel0 es d) ∧
    (∀ d', run_edges enc fuel0 es d = Ok d' → canonical (mem d')).
Proof.
  intros Henc. revert d. induction es as [|ed es IH]; intros d Hcan.
  - exists 0. cbn [run_edges]. split; [done|]. split; [done|].
    by intros d' [= <-].
  - destruct (run_edge_enough_fuel enc ed d Henc Hcan) as (f1 & Hne1 & Hst1).
    destruct (run_edge enc f1 ed d) as [d1|e1|] eqn:H1; [| |done].
    + pose proof (run_edge_canonical _ _ _ _ _ Hcan H1) as Hcan1.
      destruct (IH d1 Hcan1) as (f2 & Hne2 & Hst2 & Hcan2).
      exists (f1 `max` f2). cbn [run_edges].
      rewrite (Hst1 (f1 `max` f2)) by lia. cbn [result_bind].
      rewrite (Hst2 (f1 `max` f2)) by lia.
      split; [done|]. split; [|done].
      intros fuel Hle. rewrite (Hst1 fuel) by lia. cbn [result_bind].
      apply Hst2. lia.
    + exists f1. cbn [run_edges]. rewrite H1. cbn [result_bind].
      split; [done|]. split; [|done].
      intros fuel Hle. by rewrite (Hst1 fuel) by lia.
Qed.

(** [upgrade_json] ends when given enough fuel, with a snapshot or an
    exception, and any larger fuel gives the same outcome. *)
Theorem upgrade_json_enough_fuel enc doc :
  serializer_current enc →
  ∃ fuel0, upgrade_json enc fuel0 doc ≠ OutOfFuel ∧
    ∀ fuel, fuel0 ≤ fuel →
      upgrade_json enc fuel doc = upgrade_json enc fuel0 doc.
Proof.
  intros Henc.
  assert (∀ fuel, upgrade_json enc fuel doc = version_chain_driver enc fuel doc)
    as Hdrv by (intros; apply upgrade_json_driver).
  unfold version_chain_driver in Hdrv.
  destruct (source_state (doc_version doc)) as [[V es]|].
  - destruct (run_edges_enough_fuel enc es (json_loads doc) Henc
                (json_loads_canonical doc)) as (fuel0 & Hne & Hst & Hcan).
    exists fuel0. rewrite Hdrv. split.
    + destruct (run_edges enc fuel0 es (json_loads doc)) as [d'| |] eqn:Hrun;
        [|done..].
      cbn [result_bind]. by rewrite (json_dumps_canonical d' (Hcan d' eq_refl)).
    + intros fuel Hle. by rewrite Hdrv, (Hst fuel Hle).
  - exists 0. rewrite Hdrv. split; [done|]. intros fuel _. by rewrite Hdrv.
Qed.

(** The [ValueError] of an unknown version is raised by the dispatch only,
    never by a version step. *)
Lemma upgrade_json_cannot_update enc fuel doc v :
  upgrade_json enc fuel doc = Raise (ValueError (CannotUpdateFrom v)) →
  source_state (doc_version doc) = None ∧ v = doc_version doc.
Proof.
  rewrite upgrade_json_driver. unfold version_chain_driver.
  destruct (source_state (doc_version doc)) as [[V es]|].
  - destruct (run_edges enc fuel es (json_loads doc)) as [d'|e|] eqn:Hrun;
      cbn [result_bind].
    + unfold json_dumps. by destruct (mapM _ _).
    + intros [= ->]. by apply run_edges_ordinary in Hrun.
    + done.
  - by intros [= <-].
Qed.

(** ** The pass of the source and the pass of the specification *)

(** Over a tail of nodes without a registered rule a pass changes
    nothing. *)
Lemma _updater_loop_quiet_tail node_map fuel idx σ k σ' :
  (∀ i item, idx ≤ i → nodes σ !! i = Some item →
             ∃ n, heap σ !! item = Some n ∧ node_map !! type_key n = None) →
  _updater_loop node_map fuel idx σ = Ok (k, σ') → σ' = σ.
Proof.
  revert idx. induction fuel as [|fuel IH]; intros idx Hall;
    rewrite _updater_loop_unfold;
    destruct (nodes σ !! idx) as [item|] eqn:Hidx; try done;
    try (by intros [= _ <-]).
  destruct (Hall idx item (le_n _) Hidx) as (n & Hn & Hnone).
  rewrite (run_bind_ok _ _ _ _ _
             (_updater_visit_unregistered _ _ _ _ _ Hidx Hn Hnone)).
  apply IH. intros i it Hi. apply Hall. lia.
Qed.

Lemma tail_quiet_nodes node_map limit σ i item :
  tail_quiet node_map limit σ → limit ≤ i → nodes σ !! i = Some item →
  ∃ n, heap σ !! item = Some n ∧ node_map !! type_key n = None.
Proof.
  intros (Hcan & Hlim & Hq) Hi Hlook.
  destruct (canonical_lookup _ _ _ Hcan Hlook) as [-> Hlt].
  destruct (lookup_lt_is_Some_2 _ _ Hlt) as [n Hn].
  exists n. split; [done | by apply (Hq i)].
Qed.

(** When no appended node has a registered rule, the pass of the source
    ends in the store in which the pass over the indices below the initial
    length ends. *)
Lemma _updater_loop_snapshot_loop new_ok node_map limit :
  map_contract node_map → map_frame new_ok node_map →
  (∀ n, new_ok n → node_map !! type_key n = None) →
  node_map !! "" = None →
  ∀ d fuel idx σ k σ',
    tail_quiet node_map limit σ → idx + d = limit →
    _updater_loop node_map fuel idx σ = Ok (k, σ') →
    snapshot_loop node_map d idx σ = Ok (limit, σ').
Proof.
  intros Hc Hf Hnew Hempty.
  induction d as [|d IH]; intros fuel idx σ k σ' Hq Hd Hloop.
  - cbn [snapshot_loop]. rewrite run_ret.
    apply _updater_loop_quiet_tail in Hloop as ->.
    + do 2 f_equal. lia.
    + intros i item Hi. apply (tail_quiet_nodes _ _ _ _ _ Hq). lia.
  - assert (nodes σ !! idx = Some idx) as Hlook.
    { destruct Hq as (Hcan & Hlim & _). unfold canonical in Hcan.
      rewrite Hcan. apply lookup_seq. lia. }
    rewrite _updater_loop_unfold, Hlook in Hloop.
    destruct fuel as [|fuel]; [done|].
    cbn [snapshot_loop]. rewrite Hlook.
    apply bind_inv_ok in Hloop as ([] & σ1 & Hvisit & Hloop).
    rewrite (run_bind_ok _ _ _ _ _ Hvisit).
    apply (IH fuel (S idx) σ1 k σ'); [|lia|done].
    apply (_updater_visit_tail_quiet new_ok node_map limit idx idx σ σ1);
      (done || lia).
Qed.

(** The serializer of the examples is in the current format, so every
    upgrade with it ends. *)
Lemma runtime_string_current : serializer_current runtime_string.
Proof.
  intros n [s Hs]. unfold runtime_string in Hs. cbn in Hs.
  injection Hs as <-. reflexivity.
Qed.

Corollary upgrade_json_runtime_string_ends doc :
  ∃ fuel0, upgrade_json runtime_string fuel0 doc ≠ OutOfFuel ∧
    ∀ fuel, fuel0 ≤ fuel →
      upgrade_json runtime_string fuel doc =
      upgrade_json runtime_string fuel0 doc.
Proof. apply upgrade_json_enough_fuel, runtime_string_current. Qed.
(** ** The visits of a pass, one by one *)

Lemma _updater_loop_counter node_map fuel idx σ k σ' :
  _updater_loop node_map fuel idx σ = Ok (k, σ') → idx ≤ k.
Proof.
  revert idx σ. induction fuel as [|fuel IH]; intros idx σ;
    rewrite _updater_loop_unfold;
    destruct (nodes σ !! idx) as [item|]; try done;
    try (intros [= <- _]; lia).
  intros ([] & σ1 & _ & Hloop)%bind_inv_ok. apply IH in Hloop. lia.
Qed.

(** A pass that ends after the index [k - 1] is the sequence of the visits
    of the indices below [k], whatever the length of the table was at the
    start. *)
Lemma _updater_loop_visits node_map fuel idx σ k σ' :
  _updater_loop node_map fuel idx σ = Ok (k, σ') →
  snapshot_loop node_map (k - idx) idx σ = Ok (k, σ').
Proof.
  revert idx σ. induction fuel as [|fuel IH]; intros idx σ;
    rewrite _updater_loop_unfold;
    destruct (nodes σ !! idx) as [item|] eqn:Hidx; try done;
    try (intros [= <- <-]; by rewrite Nat.sub_diag).
  intros ([] & σ1 & Hvisit & Hloop)%bind_inv_ok.
  pose proof (_updater_loop_counter _ _ _ _ _ _ Hloop) as Hle.
  replace (k - idx) with (S (k - S idx)) by lia.
  cbn [snapshot_loop]. rewrite Hidx.
  rewrite (run_bind_ok _ _ _ _ _ Hvisit). by apply IH.
Qed.

(** The sequence of visits, cut at one of them. *)
Lemma snapshot_loop_split node_map before after idx σ k σ' :
  snapshot_loop node_map (before + S after) idx σ = Ok (k, σ') →
  ∃ τ item τ',
    snapshot_loop node_map before idx σ = Ok (idx + before, τ)
    ∧ nodes τ !! (idx + before) = Some item
    ∧ _updater_visit node_map (idx + before) item τ = Ok (tt, τ')
    ∧ snapshot_loop node_map after (S (idx + before)) τ' = Ok (k, σ').
Proof.
  revert idx σ. induction before as [|before IH]; intros idx σ;
    cbn [Nat.add snapshot_loop].
  - destruct (nodes σ !! idx) as [item|] eqn:Hidx; [|done].
    intros ([] & τ' & Hvisit & Hrest)%bind_inv_ok.
    exists σ, item, τ'. rewrite Nat.add_0_r. by rewrite run_ret.
  - destruct (nodes σ !! idx) as [item|] eqn:Hidx; [|done].
    intros ([] & σ1 & Hvisit & Hrest)%bind_inv_ok.
    destruct (IH _ _ Hrest) as (τ & item' & τ' & H1 & H2 & H3 & H4).
    exists τ, item', τ'.
    replace (idx + S before) with (S idx + before) by lia.
    rewrite (run_bind_ok _ _ _ _ _ Hvisit). done.
Qed.

(** What one visit does under the contract: the rule registered for the
    type key of the node runs on it, and the store it leaves is the store
    of the visit. *)
Lemma _updater_visit_rule node_map idx item σ σ' :
  map_contract node_map →
  nodes σ !! idx = Some item →
  _updater_visit node_map idx item σ = Ok (tt, σ') →
  ∃ n, heap σ !! item = Some n
       ∧ match node_map !! type_key n with
         | Some (Single f) => f item σ = Ok (item, σ')
         | Some (Chain fs) => run_chain fs item σ = Ok (item, σ')
         | None => σ' = σ
         end.
Proof.
  intros Hmap Hidx. unfold _updater_visit.
  intros (tk & σ0 & [-> (n & Hn & ->)]%get_type_key_inv & H)%bind_inv_ok.
  apply bind_inv_ok in H as (item' & σ1 & Hrule & Hset).
  exists n. split; [done|].
  assert (item' = item ∧ extends σ σ1) as [-> E].
  { destruct (node_map !! type_key n) as [[f|fs]|] eqn:Hlook.
    - by apply (Hmap _ _ Hlook).
    - by apply (run_chain_contract fs (Hmap _ _ Hlook)).
    - injection Hrule as <- <-. split; [done | apply extends_refl]. }
  rewrite nodes_setitem_id in Hset by (by eapply extends_lookup).
  injection Hset as <-.
  destruct (node_map !! type_key n) as [[f|fs]|]; [done..|].
  by injection Hrule as <-.
Qed.

(** ** The default-fill rules *)

(** C9 (as amended).  The module-attributes fill of the step 0.7 to 0.8
    fails with an assertion error on every node whose type key is not
    ["IRModule"].  The virtual-device fill of the step 0.8 to 0.9 checks no
    type key: on any node with an attribute map that lacks
    ["virtual_device_"] it fills the attribute in.  Each of the two rules
    returns a node that already has the attribute unchanged. *)
Theorem C9_default_fill_rules :
  (∀ item σ n,
     heap σ !! item = Some n → type_key n ≠ "IRModule" →
     _initialize_module_attributes item σ =
     Raise (AssertionError "Only initialize the attributes for IRModules", σ))
  ∧ (∀ item σ n a,
       heap σ !! item = Some n → type_key n = "IRModule" →
       attrs n = Some a → is_Some (a !! "attrs") →
       _initialize_module_attributes item σ = Ok (item, σ))
  ∧ (∀ item σ n a,
       heap σ !! item = Some n →
       attrs n = Some a → is_Some (a !! "virtual_device_") →
       _initialize_virtual_device item σ = Ok (item, σ))
  ∧ (∀ item σ n a,
       heap σ !! item = Some n →
       attrs n = Some a → a !! "virtual_device_" = None →
       _initialize_virtual_device item σ =
       Ok (item,
           Store (<[item := set_attrs (<["virtual_device_" := "0"]> a) n]>
                    (heap σ))
                 (nodes σ))).
Proof.
  repeat split.
  - intros item σ n Hn Htk. unfold _initialize_module_attributes.
    rewrite (run_bind_ok _ _ _ _ _ (get_type_key_ok _ _ _ Hn)).
    by rewrite bool_decide_false.
  - intros item σ n a Hn Htk Ha Hin. unfold _initialize_module_attributes.
    rewrite (run_bind_ok _ _ _ _ _ (get_type_key_ok _ _ _ Hn)).
    rewrite bool_decide_true by done. unfold py_assert.
    rewrite (run_ret_bind tt).
    rewrite (run_bind_ok _ _ _ _ _ (attrs_contains_ok _ "attrs" _ _ _ Hn Ha)).
    by rewrite bool_decide_true.
  - intros item σ n a Hn Ha Hin. unfold _initialize_virtual_device.
    rewrite (run_bind_ok _ _ _ _ _
               (attrs_contains_ok _ "virtual_device_" _ _ _ Hn Ha)).
    by rewrite bool_decide_true.
  - intros item σ n a Hn Ha Hnone. unfold _initialize_virtual_device.
    rewrite (run_bind_ok _ _ _ _ _
               (attrs_contains_ok _ "virtual_device_" _ _ _ Hn Ha)).
    rewrite bool_decide_false by (rewrite Hnone; by intros [? ?]).
    cbn [negb].
    by rewrite (run_bind_ok _ _ _ _ _
                  (attrs_setitem_ok _ "virtual_device_" "0" _ _ _ Hn Ha)).
Qed.

(** C9, the claim as stated, fails: the virtual-device fill is applied to
    a node whose type key ["tir.Var"] has no entry in the rule set of the
    step 0.8 to 0.9, and it fills the attribute in instead of failing. *)
Lemma C9_virtual_device_fill_has_no_assertion :
  node_map_08_to_09 !! "tir.Var" = None ∧
  _initialize_virtual_device 0 (Store [tir_var_node] [0]) =
  Ok (0, Store [Node "tir.Var"
                     (Some {["name" := "1"; "virtual_device_" := "0"]})
                     None None [] []] [0]).
Proof. split; vm_compute; reflexivity. Qed.

Lemma C9_default_fill_rules_witness :
  _initialize_module_attributes 0 (Store [tir_var_node] [0]) =
    Raise (AssertionError "Only initialize the attributes for IRModules",
           Store [tir_var_node] [0])
  ∧ _initialize_module_attributes 0 (Store [module_node] [0]) =
    Ok (0, Store [module_node] [0])
  ∧ _initialize_virtual_device 0 (Store [relay_var_node] [0]) =
    Ok (0, Store [relay_var_node] [0])
  ∧ _initialize_virtual_device 0 (Store [tir_var_node] [0]) =
    Ok (0, Store (<[0 := set_attrs (<["virtual_device_" := "0"]>
                                      {["name" := "1"]}) tir_var_node]>
                    [tir_var_node]) [0]).
Proof.
  destruct C9_default_fill_rules as (H1 & H2 & H3 & H4).
  split; [|split; [|split]].
  - apply (H1 0 (Store [tir_var_node] [0]) tir_var_node);
      [reflexivity | discriminate].
  - apply (H2 0 (Store [module_node] [0]) module_node {["attrs" := "3"]});
      [reflexivity | reflexivity | reflexivity | by eexists].
  - apply (H3 0 (Store [relay_var_node] [0]) relay_var_node
                {["virtual_device_" := "7"]});
      [reflexivity | reflexivity | by eexists].
  - apply (H4 0 (Store [tir_var_node] [0]) tir_var_node {["name" := "1"]});
      reflexivity.
Defined.

(** C8 (as amended).  Let the ["var"] attribute of a node be an integer
    literal that indexes an entry of the table, of at most 4300 characters
    (which keeps it within the default limit of [int] on the number of
    digits).  When that entry is another node than the current one and has a
    ["name"] attribute, and the type key of the current node starts with
    ["relay."], the rule returns the current node with ["name_hint"] set to
    the name the referenced node had on entry, ["var"] deleted and the prefix
    ["relay."] stripped from its type key, and the referenced node has the
    empty type key; nothing else in the store changes.  The referenced node
    is tombstoned after it has been read, never before: when it has no
    attribute map or no ["name"], the rule raises [KeyError] at the read and
    leaves the store as it was, the referenced node with its type key. *)
Theorem C8_cross_reference_rewrite item σ n a var z target m :
  heap σ !! item = Some n → attrs n = Some a → a !! "var" = Some var →
  py_int var = Some z → String.length var ≤ 4300 →
  py_getitem (nodes σ) z = Some target →
  heap σ !! target = Some m →
  (∀ b name,
     attrs m = Some b → b !! "name" = Some name →
     target ≠ item →
     startswith (type_key n) "relay." = true →
     _ftype_var item σ =
     Ok (item,
         Store (<[item := Node (slice_from 6 (type_key n))
                               (Some (delete "var"
                                        (<["name_hint" := name]> a)))
                               (global_key n) (repr_str n) (keys n)
                               (data n)]>
                  (<[target := Node "" (attrs m) (global_key m) (repr_str m)
                                    (keys m) (data m)]> (heap σ)))
               (nodes σ)))
  ∧ (attrs m = None → _ftype_var item σ = Raise (KeyError "attrs", σ))
  ∧ (∀ b, attrs m = Some b → b !! "name" = None →
          _ftype_var item σ = Raise (KeyError "name", σ)).
Proof.
  intros Hn Ha Hvar Hz _ Ht Hm. split.
  - intros b name Hb Hname Hne Hpre. by eapply _ftype_var_ok.
  - by eapply _ftype_var_read_raises.
Qed.

Lemma C8_cross_reference_rewrite_witness :
  _ftype_var 0 type_var_store =
    Ok (0, Store [ Node "TypeVar" (Some {["name_hint" := "T"]})
                        None None [] [];
                   Node "" (Some {["name" := "T"]}) None None [] [] ]
                 [0; 1])
  ∧ _ftype_var 0 nameless_target_store =
    Raise (KeyError "name", nameless_target_store).
Proof.
  split.
  - destruct (C8_cross_reference_rewrite 0 type_var_store type_var_node
                {["var" := "1"]} "1" 1 1 var_target_node) as [Hok _];
      [ reflexivity | reflexivity | reflexivity | vm_compute; reflexivity
      | cbn; lia | reflexivity | reflexivity | ].
    rewrite (Hok {["name" := "T"]} "T");
      [ vm_compute; reflexivity | reflexivity | reflexivity | lia
      | reflexivity ].
  - destruct (C8_cross_reference_rewrite 0 nameless_target_store
                type_var_node {["var" := "1"]} "1" 1 1 nameless_target_node)
      as (_ & _ & Hraise);
      [ reflexivity | reflexivity | reflexivity | vm_compute; reflexivity
      | cbn; lia | reflexivity | reflexivity | ].
    apply (Hraise {["label" := "T"]}); reflexivity.
Defined.

(** C8, the claim as stated, fails on a node whose ["var"] is the index of
    the node itself: the entry is in bounds and has a ["name"], the type key
    starts with ["relay."], yet the rule clears the type key before its
    assertion reads it and raises, leaving the node with the empty type
    key. *)
Lemma C8_self_reference_raises :
  py_int "0" = Some 0%Z ∧
  py_getitem (nodes self_var_store) 0 = Some 0 ∧
  heap self_var_store !! 0 = Some self_var_node ∧
  startswith (type_key self_var_node) "relay." = true ∧
  _ftype_var 0 self_var_store =
  Raise (AssertionError "",
         Store [ Node "" (Some {["name" := "T"; "name_hint" := "T"]})
                      None None [] [] ] [0]).
Proof. repeat split; vm_compute; reflexivity. Qed.

(** C10.  When the cross-reference rule tombstones a node, only the type
    key of that node changes: its attribute map and every other field are
    those it had before.  A second node that refers to the same, now
    tombstoned, node still receives the original name.  The two ["var"]
    attributes are integer literals of at most 4300 characters, within the
    default limit of [int] on the number of digits. *)
Theorem C10_tombstone_keeps_fields
    item1 item2 σ n1 a1 var1 z1 n2 a2 var2 z2 target m b name :
  heap σ !! item1 = Some n1 → attrs n1 = Some a1 → a1 !! "var" = Some var1 →
  py_int var1 = Some z1 → String.length var1 ≤ 4300 →
  py_getitem (nodes σ) z1 = Some target →
  startswith (type_key n1) "relay." = true →
  heap σ !! item2 = Some n2 → attrs n2 = Some a2 → a2 !! "var" = Some var2 →
  py_int var2 = Some z2 → String.length var2 ≤ 4300 →
  py_getitem (nodes σ) z2 = Some target →
  startswith (type_key n2) "relay." = true →
  heap σ !! target = Some m → attrs m = Some b → b !! "name" = Some name →
  target ≠ item1 → target ≠ item2 → item1 ≠ item2 →
  ∃ σ1 σ2 n2',
    _ftype_var item1 σ = Ok (item1, σ1) ∧
    heap σ1 !! target =
      Some (Node "" (attrs m) (global_key m) (repr_str m) (keys m) (data m)) ∧
    _ftype_var item2 σ1 = Ok (item2, σ2) ∧
    heap σ2 !! item2 = Some n2' ∧
    attrs n2' = Some (delete "var" (<["name_hint" := name]> a2)).
Proof.
  intros Hn1 Ha1 Hv1 Hz1 _ Ht1 Hp1 Hn2 Ha2 Hv2 Hz2 _ Ht2 Hp2 Hm Hb Hname
    Hne1 Hne2 Hne.
  pose proof (lookup_lt_Some _ _ _ Hm) as Hlt.
  pose proof (lookup_lt_Some _ _ _ Hn2) as Hlt2.
  eexists _, _, _. split; [by eapply _ftype_var_ok|].
  cbn [heap nodes]. split.
  { rewrite list_lookup_insert_ne by done. by apply list_lookup_insert_eq. }
  split.
  { eapply (_ftype_var_ok item2 _ n2 a2 var2 z2 target (set_type_key "" m));
      cbn [heap nodes]; try done.
    - by rewrite !list_lookup_insert_ne.
    - rewrite list_lookup_insert_ne by done. by apply list_lookup_insert_eq. }
  cbn [heap nodes].
  split; [apply list_lookup_insert_eq; by rewrite !length_insert|].
  reflexivity.
Qed.

Lemma C10_tombstone_keeps_fields_witness :
  ∃ σ1 σ2 n2',
    _ftype_var 0 shared_var_store = Ok (0, σ1) ∧
    heap σ1 !! 2 = Some (Node "" (Some {["name" := "T"]}) None None [] []) ∧
    _ftype_var 1 σ1 = Ok (1, σ2) ∧
    heap σ2 !! 1 = Some n2' ∧
    attrs n2' = Some (delete "var" (<["name_hint" := "T"]> {["var" := "1"]})).
Proof.
  apply (C10_tombstone_keeps_fields 0 1 shared_var_store
           type_var_node {["var" := "1"]} "1" 1
           (Node "relay.GlobalTypeVar" (Some {["var" := "1"]}) None None [] [])
           {["var" := "1"]} "1" 1
           2 var_target_node {["name" := "T"]} "T");
    first [ lia | vm_compute; reflexivity | cbn; lia ].
Defined.

(** ** The rule applicator *)

Lemma run_chain_app fs gs item σ :
  run_chain (fs ++ gs) item σ =
  (mid ← run_chain fs item; run_chain gs mid) σ.
Proof.
  revert item σ. induction fs as [|f fs IH]; intros item σ; [done|].
  cbn [app run_chain]. rewrite !run_bind.
  destruct (f item σ) as [[item' σ']| |]; [|done..].
  by rewrite IH, run_bind.
Qed.

Lemma run_chain_one (A : rule) item σ : run_chain [A] item σ = A item σ.
Proof.
  cbn [run_chain]. rewrite run_bind.
  by destruct (A item σ) as [[item' σ']| |].
Qed.

(** The visit of a node whose type key is registered with a list of
    rules, from the outcome of the list. *)
Lemma _updater_visit_chain (node_map : gmap string entry) tag fs idx item σ n :
  node_map !! tag = Some (Chain fs) →
  heap σ !! item = Some n → type_key n = tag →
  _updater_visit node_map idx item σ =
  match run_chain fs item σ with
  | Ok (last, σ') =>
      if decide (idx < length (nodes σ'))
      then Ok (tt, Store (heap σ') (<[idx := last]> (nodes σ')))
      else Raise (IndexError, σ')
  | Raise p => Raise p
  | OutOfFuel => OutOfFuel
  end.
Proof.
  intros Hlook Hn Htag. unfold _updater_visit.
  rewrite (run_bind_ok _ _ _ _ _ (get_type_key_ok _ _ _ Hn)), Htag, Hlook.
  rewrite run_bind. by destruct (run_chain fs item σ) as [[last σ']| |].
Qed.

(** C7.  For a type key registered with a list of rules, of any length, a
    visit runs the rules from left to right: every rule runs on the node the
    rule before it returned and in the store that rule left, so that for
    every way of cutting the list in two, the first part runs before the
    second; for [[A; B]] this is [A], then [B] on the result of [A], and for
    a list of three likewise.  The visit then stores the node the last rule
    returned at the visited index, in the store the last rule left; an
    exception of a rule ends the visit with the store as the rule left it.
    The order matters: with the two renaming rules of [ab_map] and [ba_map]
    the visited node ends with the type key of the rule listed last. *)
Theorem C7_chain_in_registration_order :
  (∀ (node_map : gmap string entry) tag fs idx item σ n,
     node_map !! tag = Some (Chain fs) →
     heap σ !! item = Some n → type_key n = tag →
     _updater_visit node_map idx item σ =
     match run_chain fs item σ with
     | Ok (last, σ') =>
         if decide (idx < length (nodes σ'))
         then Ok (tt, Store (heap σ') (<[idx := last]> (nodes σ')))
         else Raise (IndexError, σ')
     | Raise p => Raise p
     | OutOfFuel => OutOfFuel
     end)
  ∧ (∀ fs gs item σ,
       run_chain (fs ++ gs) item σ =
       (mid ← run_chain fs item; run_chain gs mid) σ)
  ∧ (∀ (A : rule) item σ, run_chain [A] item σ = A item σ)
  ∧ (∀ (A B : rule) item σ,
       run_chain [A; B] item σ = (after_A ← A item; B after_A) σ)
  ∧ (∀ (A B C : rule) item σ,
       run_chain [A; B; C] item σ =
       (after_A ← A item; after_B ← B after_A; C after_B) σ)
  ∧ _updater_visit ab_map 0 0 variable_store =
    Ok (tt, Store [set_type_key "B" variable_x] [0])
  ∧ _updater_visit ba_map 0 0 variable_store =
    Ok (tt, Store [set_type_key "A" variable_x] [0]).
Proof.
  split; [apply _updater_visit_chain|].
  split; [apply run_chain_app|].
  split; [apply run_chain_one|].
  split.
  { intros A B item σ. rewrite (run_chain_app [A] [B]), !run_bind.
    rewrite run_chain_one. destruct (A item σ) as [[a σ1]| |]; [|done..].
    apply run_chain_one. }
  split; [|split; vm_compute; reflexivity].
  intros A B C item σ. rewrite (run_chain_app [A] [B; C]), !run_bind.
  rewrite run_chain_one. destruct (A item σ) as [[a σ1]| |]; [|done..].
  rewrite (run_chain_app [B] [C]), !run_bind. rewrite run_chain_one.
  destruct (B a σ1) as [[b σ2]| |]; [|done..]. apply run_chain_one.
Qed.

Lemma C7_chain_in_registration_order_witness :
  _updater_visit (node_map_06_to_07 runtime_string) 0 0 buffer_store =
  Ok (tt,
      Store [ Node "tir.Buffer" (Some {["name" := "1"; "scope" := "2"]})
                   None None [] [];
              Node "runtime.String" None None (Some "A") [] [];
              Node "runtime.String" None None (Some "global") [] [] ]
            [0; 1; 2]).
Proof.
  rewrite (proj1 C7_chain_in_registration_order
             (node_map_06_to_07 runtime_string) "Buffer"
             [ _rename "tir.Buffer";
               _update_from_std_str runtime_string "name";
               _update_from_std_str runtime_string "scope" ]
             0 0 buffer_store buffer_node);
    vm_compute; reflexivity.
Defined.

(** C1, the claim as stated, fails.  The table has one entry.  The pass of
    the source visits index 0, where the promotion rule appends a string
    node, and then index 1: the rule registered for the appended node
    renames it in that same pass.  The pass of the specification stops after
    index 0 and leaves the appended node as it was appended.  With the rule
    set of the step 0.6 to 0.7 the pass of the source visits index 1 as
    well. *)
Lemma C1_appended_node_is_visited :
  length (nodes variable_store) = 1
  ∧ _updater_loop revisit_map 2 0 variable_store =
    Ok (2, Store [ Node "Variable" (Some {["name" := "1"]}) None None [] [];
                   Node "visited" None None (Some "x") [] [] ] [0; 1])
  ∧ snapshot_pass revisit_map variable_store =
    Ok (1, Store [ Node "Variable" (Some {["name" := "1"]}) None None [] [];
                   Node "runtime.String" None None (Some "x") [] [] ] [0; 1])
  ∧ _updater_loop (node_map_06_to_07 runtime_string) 2 0 variable_store =
    Ok (2, Store [ Node "tir.Var"
                        (Some {["name" := "1"; "type_annotation" := "0"]})
                        None None [] [];
                   Node "runtime.String" None None (Some "x") [] [] ] [0; 1]).
Proof. repeat split; vm_compute; reflexivity. Qed.

(** C1 (as amended).  For a rule set whose rules return the node they were
    given and only append to the table, a pass that ends has visited the
    indices 0, 1, ... up to the length the table has at the end of the pass,
    and not only up to the length [L] it had at the start.  The pass is the
    sequence of these visits: at every index below the final length, and so
    at the index of every node appended during the pass, the body of the
    loop runs on the node found there, in the store the earlier visits left,
    and the rule registered for the type key of that node is applied to it.
    When moreover the rules change no other node except for clearing its
    type key, and neither the nodes they create nor the empty type key have
    a registered rule (as in the three rule sets of the migrator), visiting
    the appended nodes changes nothing: on a loaded snapshot the pass ends
    in the same store as the pass over the indices 0 to [L - 1]. *)
Theorem C1_pass_visits_every_index new_ok node_map fuel σ visited σ' :
  map_contract node_map →
  _updater_loop node_map fuel 0 σ = Ok (visited, σ') →
  visited = length (nodes σ')
  ∧ length (nodes σ) ≤ visited
  ∧ snapshot_loop node_map visited 0 σ = Ok (visited, σ')
  ∧ (∀ idx, idx < visited →
       ∃ τ item n τ',
         snapshot_loop node_map idx 0 σ = Ok (idx, τ)
         ∧ nodes τ !! idx = Some item
         ∧ heap τ !! item = Some n
         ∧ _updater_visit node_map idx item τ = Ok (tt, τ')
         ∧ match node_map !! type_key n with
           | Some (Single f) => f item τ = Ok (item, τ')
           | Some (Chain fs) => run_chain fs item τ = Ok (item, τ')
           | None => τ' = τ
           end
         ∧ snapshot_loop node_map (visited - S idx) (S idx) τ' =
           Ok (visited, σ'))
  ∧ (map_frame new_ok node_map →
     (∀ n, new_ok n → node_map !! type_key n = None) →
     node_map !! "" = None →
     canonical σ →
     snapshot_pass node_map σ = Ok (length (nodes σ), σ')).
Proof.
  intros Hmap Hloop.
  pose proof (_updater_loop_visits _ _ _ _ _ _ Hloop) as Hvisits.
  rewrite Nat.sub_0_r in Hvisits.
  destruct (_updater_loop_extends _ _ _ _ _ _ Hmap (Nat.le_0_l _) Hloop)
    as [E ->].
  split; [done|]. split; [by apply extends_length|].
  split; [exact Hvisits|]. split.
  - intros idx Hidx.
    replace (length (nodes σ')) with (idx + S (length (nodes σ') - S idx))
      in Hvisits at 1 by lia.
    destruct (snapshot_loop_split _ _ _ _ _ _ _ Hvisits)
      as (τ & item & τ' & H1 & H2 & H3 & H4).
    cbn [Nat.add] in H1, H2, H3, H4.
    destruct (_updater_visit_rule _ _ _ _ _ Hmap H2 H3) as (n & Hn & Hrule).
    by exists τ, item, n, τ'.
  - intros Hframe Hnew Hempty Hcan. unfold snapshot_pass.
    assert (length (nodes σ) = length (heap σ)) as Hlen.
    { unfold canonical in Hcan. by rewrite Hcan, length_seq. }
    apply (_updater_loop_snapshot_loop new_ok node_map (length (nodes σ))
             Hmap Hframe Hnew Hempty (length (nodes σ)) fuel 0 σ
             (length (nodes σ')) σ'); [|done|exact Hloop].
    split; [done|]. split; [lia|]. intros b n Hb Hn.
    apply lookup_lt_Some in Hn. lia.
Qed.

Lemma C1_pass_visits_every_index_witness :
  let σ' := Store [ Node "Variable" (Some {["name" := "1"]}) None None [] [];
                    Node "visited" None None (Some "x") [] [] ]
                  [0; 1] in
  2 = length (nodes σ')
  ∧ length (nodes variable_store) ≤ 2
  ∧ snapshot_loop revisit_map 2 0 variable_store = Ok (2, σ')
  ∧ ∃ τ item n τ',
      snapshot_loop revisit_map 1 0 variable_store = Ok (1, τ)
      ∧ nodes τ !! 1 = Some item
      ∧ heap τ !! item = Some n
      ∧ _updater_visit revisit_map 1 item τ = Ok (tt, τ')
      ∧ match revisit_map !! type_key n with
        | Some (Single f) => f item τ = Ok (item, τ')
        | Some (Chain fs) => run_chain fs item τ = Ok (item, τ')
        | None => τ' = τ
        end
      ∧ snapshot_loop revisit_map 0 2 τ' = Ok (2, σ').
Proof.
  intros σ'.
  destruct (C1_pass_visits_every_index (serialized runtime_string)
              revisit_map 2 variable_store 2 σ') as (H1 & H2 & H3 & H4 & _).
  - apply revisit_map_contract.
  - vm_compute; reflexivity.
  - split; [exact H1|]. split; [exact H2|]. split; [exact H3|].
    apply (H4 1). lia.
Defined.

(** C6, the claim as stated, fails in one part.  The node at index 1 has
    the type key ["IntImm"], for which the step 0.6 to 0.7 registers no
    rule, and yet it is not left unchanged by the pass: the cross-reference
    rule that runs for the node at index 0 clears its type key. *)
Lemma C6_unregistered_node_is_changed :
  node_map_06_to_07 runtime_string !! "IntImm" = None
  ∧ nodes unregistered_target_store !! 1 = Some 1
  ∧ heap unregistered_target_store !! 1 = Some int_imm_node
  ∧ _updater_loop (node_map_06_to_07 runtime_string) 3 0
      unregistered_target_store =
    Ok (3, Store [ Node "TypeVar" (Some {["name_hint" := "2"]}) None None [] [];
                   Node "" (Some {["name" := "T"]}) None None [] [];
                   Node "runtime.String" None None (Some "T") [] [] ]
                 [0; 1; 2]).
Proof. repeat split; vm_compute; reflexivity. Qed.

(** C6 (as amended).  Take a rule set whose rules return the node they
    were given, only append to the table, change no other node except for
    clearing its type key, and that registers no rule for the empty type key
    (the three rule sets of the migrator are such).  A pass that ends leaves
    a table that is the table at the start followed by the appended nodes:
    its length does not decrease, no entry is removed or moved, and every
    index of the start holds the same node object, rewritten in place or
    not.  The visit of a node whose type key has no registered rule changes
    nothing in the store, and at the end of the pass such a node is what it
    was at the start, except that its type key may have been cleared by the
    cross-reference rule of another node. *)
Theorem C6_table_only_grows new_ok node_map fuel σ visited σ' :
  map_contract node_map →
  map_frame new_ok node_map →
  node_map !! "" = None →
  _updater_loop node_map fuel 0 σ = Ok (visited, σ') →
  length (nodes σ) ≤ length (nodes σ')
  ∧ (∃ appended, nodes σ' = nodes σ ++ appended)
  ∧ (∀ idx item, nodes σ !! idx = Some item → nodes σ' !! idx = Some item)
  ∧ (∀ idx item τ n,
       nodes τ !! idx = Some item → heap τ !! item = Some n →
       node_map !! type_key n = None →
       _updater_visit node_map idx item τ = Ok (tt, τ))
  ∧ (∀ item n,
       heap σ !! item = Some n → node_map !! type_key n = None →
       heap σ' !! item = Some n ∨ heap σ' !! item = Some (set_type_key "" n)).
Proof.
  intros Hmap Hframe Hempty Hloop.
  pose proof (_updater_loop_unregistered_nodes _ _ _ _ _ _ _
                Hframe Hempty Hloop) as Hnodes.
  apply _updater_loop_extends in Hloop as [E _]; [|done|lia].
  split; [by apply extends_length|].
  split; [by apply extends_prefix|].
  split; [intros idx item; by apply extends_lookup|].
  split; [intros idx item τ n; apply _updater_visit_unregistered|].
  intros item n Hn Hnone.
  destruct (Hnodes item n Hn Hnone) as (n' & Hn' & [->| ->]); auto.
Qed.

Lemma C6_table_only_grows_witness :
  let node_map := node_map_06_to_07 runtime_string in
  let σ := unregistered_target_store in
  let σ' := Store [ Node "TypeVar" (Some {["name_hint" := "2"]}) None None [] [];
                    Node "" (Some {["name" := "T"]}) None None [] [];
                    Node "runtime.String" None None (Some "T") [] [] ]
                  [0; 1; 2] in
  length (nodes σ) ≤ length (nodes σ')
  ∧ (∃ appended, nodes σ' = nodes σ ++ appended)
  ∧ (∀ idx item, nodes σ !! idx = Some item → nodes σ' !! idx = Some item)
  ∧ (∀ idx item τ n,
       nodes τ !! idx = Some item → heap τ !! item = Some n →
       node_map !! type_key n = None →
       _updater_visit node_map idx item τ = Ok (tt, τ))
  ∧ (∀ item n,
       heap σ !! item = Some n → node_map !! type_key n = None →
       heap σ' !! item = Some n ∨ heap σ' !! item = Some (set_type_key "" n)).
Proof.
  apply (C6_table_only_grows (serialized runtime_string)
           (node_map_06_to_07 runtime_string) 3 unregistered_target_store 3).
  - apply node_map_06_to_07_contract.
  - apply node_map_06_to_07_frame.
  - reflexivity.
  - vm_compute; reflexivity.
Defined.

(** ** The version chain driver: the claims *)

(** C3.  [upgrade_json] is the version chain driver: when one of the known
    source versions 0.6, 0.7, 0.8 is a prefix of the declared version (at
    most one is), the passes from that version to the terminal one are run
    in increasing order; a trailing suffix as in ["0.6.1"] is accepted.  A
    declared version with no such prefix, like ["0.3"], makes the call raise
    the [ValueError] whose text is ["Cannot update from version "] followed
    by that version, and nothing is returned; this error has no other
    cause. *)
Theorem C3_version_dispatch :
  (∀ enc fuel doc,
     upgrade_json enc fuel doc = version_chain_driver enc fuel doc)
  ∧ source_state "0.6.1" = Some ("0.6", [Edge_06_07; Edge_07_08; Edge_08_09])
  ∧ source_state "0.7" = Some ("0.7", [Edge_07_08; Edge_08_09])
  ∧ source_state "0.8.dev0" = Some ("0.8", [Edge_08_09])
  ∧ (∀ v V W es es',
       (V, es) ∈ known_versions → (W, es') ∈ known_versions →
       startswith v V = true → startswith v W = true → V = W)
  ∧ (∀ enc fuel doc,
       source_state (doc_version doc) = None →
       upgrade_json enc fuel doc =
       Raise (ValueError (CannotUpdateFrom (doc_version doc))))
  ∧ (∀ enc fuel doc v,
       upgrade_json enc fuel doc = Raise (ValueError (CannotUpdateFrom v)) →
       source_state (doc_version doc) = None ∧ v = doc_version doc)
  ∧ (∀ enc fuel r b ns,
       upgrade_json enc fuel (JsonDoc "0.3" r b ns) =
       Raise (ValueError (CannotUpdateFrom "0.3")))
  ∧ cannot_update_message "0.3" = "Cannot update from version 0.3".
Proof.
  split; [exact upgrade_json_driver|].
  do 3 (split; [reflexivity|]).
  split.
  { exact known_versions_exclusive. }
  split.
  { intros enc fuel doc H. rewrite upgrade_json_driver.
    unfold version_chain_driver. by rewrite H. }
  split; [exact upgrade_json_cannot_update|].
  split; [|reflexivity].
  intros enc fuel r b ns. reflexivity.
Qed.

Lemma C3_version_dispatch_witness :
  upgrade_json runtime_string 1 (JsonDoc "1.0" 0 [] []) =
    Raise (ValueError (CannotUpdateFrom "1.0"))
  ∧ (source_state (doc_version (JsonDoc "1.0" 0 [] [])) = None
     ∧ "1.0" = doc_version (JsonDoc "1.0" 0 [] []))
  ∧ "0.6" = "0.6".
Proof.
  destruct C3_version_dispatch as (_ & _ & _ & _ & Huniq & Hnone & Honly & _).
  assert (upgrade_json runtime_string 1 (JsonDoc "1.0" 0 [] []) =
          Raise (ValueError (CannotUpdateFrom "1.0"))) as Hraise.
  { apply (Hnone runtime_string 1 (JsonDoc "1.0" 0 [] [])). reflexivity. }
  split; [exact Hraise|]. split.
  - exact (Honly runtime_string 1 (JsonDoc "1.0" 0 [] []) "1.0" Hraise).
  - apply (Huniq "0.6.1" "0.6" "0.6" [Edge_06_07; Edge_07_08; Edge_08_09]
             [Edge_06_07; Edge_07_08; Edge_08_09]);
      first [reflexivity | apply list_elem_of_here].
Defined.

(** C2, the claim as stated, fails: a snapshot that declares the terminal
    version is not returned as it is; the call raises and returns nothing. *)
Lemma C2_current_version_is_rejected :
  doc_version doc_current = terminal_version
  ∧ upgrade_json runtime_string 1 doc_current =
    Raise (ValueError (CannotUpdateFrom "0.9"))
  ∧ upgrade_json runtime_string 1 doc_current ≠ Ok doc_current.
Proof.
  split; [reflexivity|]. split; [vm_compute; reflexivity|].
  intros H. vm_compute in H. discriminate H.
Qed.

(** C2 (as amended).  For a snapshot that declares the terminal version,
    no rule set is selected and no pass is run: the call raises the
    [ValueError] for that version and returns nothing. *)
Theorem C2_terminal_version_raises enc fuel r b ns :
  source_state terminal_version = None
  ∧ upgrade_json enc fuel (JsonDoc terminal_version r b ns) =
    Raise (ValueError (CannotUpdateFrom terminal_version)).
Proof. split; reflexivity. Qed.

(** C4.  For a snapshot whose declared version starts with ["0.6"],
    [upgrade_json] gives what two calls give: the step 0.6 to 0.7 alone,
    written out as a snapshot text, and then [upgrade_json] on that text,
    which now declares ["0.7"].  This holds for every outcome: a result, an
    exception of a rule in either call, or a pass cut off by the fuel.  The
    single call runs the three steps in increasing order of version, each
    on the data the previous one returned. *)
Theorem C4_chain_in_two_calls enc fuel doc :
  startswith (doc_version doc) "0.6" = true →
  upgrade_json enc fuel doc =
    result_bind (upgrade_06_to_07 enc fuel doc) (upgrade_json enc fuel)
  ∧ upgrade_json enc fuel doc =
    result_bind
      (run_edges enc fuel [Edge_06_07; Edge_07_08; Edge_08_09]
                 (json_loads doc))
      json_dumps.
Proof.
  intros H06. split.
  - unfold upgrade_06_to_07.
    unfold upgrade_json at 1. cbn [json_loads tvm_version]. rewrite H06.
    destruct (create_updater_06_to_07 enc fuel (json_loads doc))
      as [d1| |] eqn:H1; [|done..].
    cbn [result_bind].
    apply create_updater_canonical in H1 as [Hc Hv];
      [|apply node_map_06_to_07_contract|apply json_loads_canonical].
    rewrite (json_dumps_canonical d1 Hc). cbn [result_bind].
    unfold upgrade_json. rewrite (json_loads_dumps d1 Hc), Hv.
    reflexivity.
  - rewrite upgrade_json_driver.
    unfold version_chain_driver, source_state, known_versions.
    cbn [List.find fst]. by rewrite H06.
Qed.

Lemma C4_chain_in_two_calls_witness :
  upgrade_json runtime_string 2 doc_variable_061 =
    result_bind (upgrade_06_to_07 runtime_string 2 doc_variable_061)
                (upgrade_json runtime_string 2)
  ∧ upgrade_json runtime_string 2 doc_variable_061 =
    result_bind
      (run_edges runtime_string 2 [Edge_06_07; Edge_07_08; Edge_08_09]
                 (json_loads doc_variable_061))
      json_dumps.
Proof.
  apply (C4_chain_in_two_calls runtime_string 2 doc_variable_061).
  reflexivity.
Defined.

(** ** The attribute promotion and the scenario of version 0.6.1 *)

Lemma _update_from_std_str_ok enc key item σ n a str_val val :
  heap σ !! item = Some n → attrs n = Some a → a !! key = Some str_val →
  doc_nodes (enc str_val) !! doc_root (enc str_val) = Some val →
  _update_from_std_str enc key item σ =
  Ok (item,
      Store (<[item := set_attrs (<[key := pretty (length (nodes σ))]> a) n]>
               (heap σ ++ [val]))
            (nodes σ ++ [length (heap σ)])).
Proof.
  intros Hn Ha Hkey Hval. unfold _update_from_std_str.
  rewrite (run_bind_ok _ _ _ _ _ (attrs_getitem_ok _ _ _ _ _ _ Hn Ha Hkey)).
  rewrite Hval. rewrite (run_ret_bind val).
  unfold alloc, nodes_len, nodes_append. rewrite !run_bind. cbn [heap nodes].
  set (σ3 := Store (heap σ ++ [val]) (nodes σ ++ [length (heap σ)])).
  assert (H3 : heap σ3 !! item = Some n).
  { cbn [heap σ3]. by apply lookup_app_l_Some. }
  rewrite (attrs_setitem_ok _ key (pretty (length (nodes σ))) σ3 _ _ H3 Ha).
  reflexivity.
Qed.

Lemma _update_tir_var_ok new_name item σ n a :
  heap σ !! item = Some n → attrs n = Some a →
  _update_tir_var new_name item σ =
  Ok (item,
      Store (<[item := Node new_name (Some (<["type_annotation" := "0"]> a))
                            (global_key n) (repr_str n) (keys n) (data n)]>
               (heap σ))
            (nodes σ)).
Proof.
  intros Hn Ha. unfold _update_tir_var.
  rewrite (run_bind_ok _ _ _ _ _ (put_type_key_ok _ new_name _ _ Hn)).
  set (σ1 := Store _ _).
  assert (H1 : heap σ1 !! item = Some (set_type_key new_name n)).
  { cbn [heap σ1]. apply list_lookup_insert_eq. by eapply lookup_lt_Some. }
  rewrite (run_bind_ok _ _ _ _ _
             (attrs_setitem_ok _ "type_annotation" "0" σ1 _ a H1 Ha)).
  rewrite run_ret. cbn [heap nodes σ1]. by rewrite list_insert_insert_eq.
Qed.


Lemma node_map_06_to_07_Variable enc :
  node_map_06_to_07 enc !! "Variable" =
  Some (Chain [_update_tir_var "tir.Var"; _update_from_std_str enc "name"]).
Proof. reflexivity. Qed.

Lemma scenario_step_06_07 enc fuel val :
  doc_nodes (enc "x") !! doc_root (enc "x") = Some val →
  node_map_06_to_07 enc !! type_key val = None →
  2 ≤ fuel →
  _updater_loop (node_map_06_to_07 enc) fuel 0 variable_store =
  Ok (2, Store [ Node "tir.Var"
                      (Some {["name" := "1"; "type_annotation" := "0"]})
                      None None [] [];
                 val ] [0; 1]).
Proof.
  intros Hval Hnone Hfuel.
  destruct fuel as [|[|fuel]]; [lia..|].
  set (σ2 := Store _ [0; 1]).
  assert (Hvisit : _updater_visit (node_map_06_to_07 enc) 0 0 variable_store
                   = Ok (tt, σ2)).
  { unfold _updater_visit.
    rewrite (run_bind_ok _ _ _ _ _
               (get_type_key_ok 0 variable_store variable_x eq_refl)).
    change (type_key variable_x) with "Variable".
    rewrite node_map_06_to_07_Variable. cbn [run_chain].
    rewrite !run_bind.
    rewrite (_update_tir_var_ok "tir.Var" 0 variable_store variable_x
               {["name" := "x"]} eq_refl eq_refl).
    rewrite !run_bind.
    erewrite (_update_from_std_str_ok enc "name" 0 _ _
                (<["type_annotation" := "0"]> {["name" := "x"]}) "x" val);
      [|reflexivity|reflexivity|reflexivity|exact Hval].
    rewrite run_ret. apply nodes_setitem_id. reflexivity. }
  rewrite _updater_loop_unfold.
  change (nodes variable_store !! 0) with (Some 0).
  cbv iota. rewrite (run_bind_ok _ _ _ _ _ Hvisit).
  apply (_updater_loop_unregistered _ (S fuel) 1 σ2); [|simpl; lia..].
  intros [|[|i]] item Hi Hlook; [lia| |done].
  injection Hlook as <-. by exists val.
Qed.

(** C5.  The attribute promotion, on a node whose attribute [key] holds the
    string [str_val], appends exactly one node to the table: the node [val]
    that the serializer gives for [str_val], at the index that was the length
    of the table; and it replaces the attribute by that index in decimal
    digits, which [int] reads back as the index of the appended node.
    Nothing else changes.  The snapshot of version ["0.6.1"] with
    the single node [Variable] named ["x"] is upgraded to the terminal
    version ["0.9"]: the node is renamed to ["tir.Var"], the string node for
    ["x"] is appended at index 1 and the ["name"] attribute is ["1"] (the
    rule set of the step also adds the ["type_annotation"] attribute). *)
Theorem C5_attribute_promotion :
  (∀ enc key item σ n a str_val val,
     heap σ !! item = Some n → attrs n = Some a → a !! key = Some str_val →
     doc_nodes (enc str_val) !! doc_root (enc str_val) = Some val →
     ∃ σ' new,
       _update_from_std_str enc key item σ = Ok (item, σ')
       ∧ nodes σ' = nodes σ ++ [new]
       ∧ nodes σ' !! length (nodes σ) = Some new
       ∧ heap σ' !! new = Some val
       ∧ heap σ' !! item =
         Some (set_attrs (<[key := pretty (length (nodes σ))]> a) n)
       ∧ (∃ z, py_int (pretty (length (nodes σ))) = Some z
               ∧ py_getitem (nodes σ') z = Some new)
       ∧ length (heap σ') = S (length (heap σ))
       ∧ (∀ other, other ≠ item → heap σ !! other = heap σ' !! other
                                  ∨ other = new))
  ∧ (∀ enc fuel val,
       doc_nodes (enc "x") !! doc_root (enc "x") = Some val →
       node_map_06_to_07 enc !! type_key val = None →
       node_map_07_to_08 !! type_key val = None →
       node_map_08_to_09 !! type_key val = None →
       2 ≤ fuel →
       upgrade_json enc fuel doc_variable_061 =
       Ok (JsonDoc terminal_version 0 []
             [ Node "tir.Var"
                    (Some {["name" := "1"; "type_annotation" := "0"]})
                    None None [] [];
               val ])).
Proof.
  split.
  - intros enc key item σ n a str_val val Hn Ha Hkey Hval.
    pose proof (lookup_lt_Some _ _ _ Hn) as Hlt.
    eexists _, (length (heap σ)).
    split; [by eapply _update_from_std_str_ok|]. cbn [heap nodes].
    split; [done|].
    split; [by rewrite lookup_app_r, Nat.sub_diag by lia|].
    split.
    { rewrite list_lookup_insert_ne by lia.
      by rewrite lookup_app_r, Nat.sub_diag by lia. }
    split.
    { apply list_lookup_insert_eq. rewrite length_app. lia. }
    split.
    { exists (Z.of_nat (length (nodes σ))). split; [apply py_int_pretty|].
      by rewrite py_getitem_nat, lookup_app_r, Nat.sub_diag by lia. }
    split; [rewrite length_insert, length_app; simpl; lia|].
    intros other Hne. rewrite list_lookup_insert_ne by done.
    destruct (decide (other < length (heap σ))) as [Ho|Ho].
    + left. by rewrite lookup_app_l.
    + destruct (decide (other = length (heap σ))) as [->|Ho']; [by right|].
      left. rewrite !lookup_ge_None_2; [done|rewrite length_app; simpl; lia|lia].
  - intros enc fuel val Hval H67 H78 H89 Hfuel.
    set (σ2 := Store [ Node "tir.Var"
                            (Some {["name" := "1"; "type_annotation" := "0"]})
                            None None [] []; val ] [0; 1]).
    assert (Hrest : ∀ node_map : gmap string entry,
              node_map !! "tir.Var" = None →
              node_map !! type_key val = None →
              _updater_loop node_map fuel 0 σ2 = Ok (2, σ2)).
    { intros node_map Ht Hv.
      apply (_updater_loop_unregistered node_map fuel 0 σ2); [|simpl; lia..].
      intros [|[|i]] item _ Hlook; [| |done]; injection Hlook as <-;
        eexists; (split; [reflexivity|done]). }
    unfold upgrade_json.
    change (startswith (tvm_version (json_loads doc_variable_061)) "0.6")
      with true. cbv iota.
    unfold create_updater_06_to_07, create_updater at 1.
    change (startswith (tvm_version (json_loads doc_variable_061)) "0.6")
      with true. cbv iota.
    change (mem (json_loads doc_variable_061)) with variable_store.
    rewrite (scenario_step_06_07 enc fuel val Hval H67 Hfuel).
    cbn [result_bind].
    unfold create_updater_07_to_08, create_updater at 1.
    cbn [tvm_version mem root b64ndarrays].
    change (startswith "0.7" "0.7") with true. cbv iota.
    fold σ2. rewrite (Hrest node_map_07_to_08 eq_refl H78).
    cbn [result_bind].
    unfold create_updater_08_to_09, create_updater.
    cbn [tvm_version mem root b64ndarrays].
    change (startswith "0.8" "0.8") with true. cbv iota.
    rewrite (Hrest node_map_08_to_09 eq_refl H89).
    reflexivity.
Qed.

Lemma C5_attribute_promotion_witness :
  (∃ σ' new,
     _update_from_std_str runtime_string "name" 0 variable_store = Ok (0, σ')
     ∧ nodes σ' = nodes variable_store ++ [new]
     ∧ nodes σ' !! length (nodes variable_store) = Some new
     ∧ heap σ' !! new = Some (Node "runtime.String" None None (Some "x") [] [])
     ∧ heap σ' !! 0 =
       Some (set_attrs (<["name" := pretty (length (nodes variable_store))]>
                          {["name" := "x"]}) variable_x)
     ∧ (∃ z, py_int (pretty (length (nodes variable_store))) = Some z
             ∧ py_getitem (nodes σ') z = Some new)
     ∧ length (heap σ') = S (length (heap variable_store))
     ∧ (∀ other, other ≠ 0 → heap variable_store !! other = heap σ' !! other
                              ∨ other = new))
  ∧ upgrade_json runtime_string 2 doc_variable_061 =
    Ok (JsonDoc terminal_version 0 []
          [ Node "tir.Var" (Some {["name" := "1"; "type_annotation" := "0"]})
                 None None [] [];
            Node "runtime.String" None None (Some "x") [] [] ]).
Proof.
  destruct C5_attribute_promotion as [Hrule Hscenario]. split.
  - apply (Hrule runtime_string "name" 0 variable_store variable_x
             {["name" := "x"]} "x"); reflexivity.
  - apply (Hscenario runtime_string 2
             (Node "runtime.String" None None (Some "x") [] []));
      first [reflexivity | lia].
Defined.
